(** * City Explorer back end: location resolver and read-through caches

    A shallow embedding of [server.js] and [schema.sql].

    The server is a set of Express handlers that talk to a PostgreSQL
    client and to third-party HTTP providers through promises.  One
    request is modelled as a computation in a small state-and-exception
    monad over a [World]: the relational store, the provider requests
    issued so far, the number of clock reads, the responses sent and the
    console.  A rejected promise is a thrown exception; [.catch] is
    [catch]; a query or a promise chain whose result nobody awaits is
    [forget].  The queries of one request reach the store in the order
    they are issued, as they do on the single client connection.

    What lies outside the two source files is gathered in a [Host]
    record: the providers, the clock, the date formatting of the
    JavaScript runtime, its coercions of non-primitive values, and the
    verdict of the database engine on an INSERT.  The store keeps the
    values of an accepted INSERT as they were written; SELECT and DELETE
    succeed on every table that exists.  Requests are served one after
    the other: the callbacks of two requests do not interleave. *)

From Stdlib Require Import ZArith QArith Lqa String List Lia.
From stdpp Require Import gmap strings list fin_maps.

Open Scope string_scope.
Open Scope list_scope.
Open Scope Z_scope.

(** ** JavaScript values *)

(** Provider payloads are parsed JSON; the same values fill the columns
    of a row.  A JSON number is a finite rational. *)
#[warnings="-register-all"]
Inductive json : Type :=
| JUndefined
| JNull
| JBool (b : bool)
| JNum (q : Q)
| JStr (s : string)
| JArr (items : list json)
| JObj (fields : list (string * json)).

(** What a rejected promise or a [throw] carries. *)
Inductive exn : Type :=
| TypeError (what : string)
| HttpError
| QueryError (what : string).

Inductive outcome (A : Type) : Type :=
| Ret (a : A)
| Throw (e : exn).
Arguments Ret {A} a.
Arguments Throw {A} e.

(** Sequencing of code that may throw and has no other effect. *)
Definition and_then {A B : Type} (o : outcome A) (k : A -> outcome B) : outcome B :=
  match o with
  | Ret a => k a
  | Throw e => Throw e
  end.

Declare Scope js_scope.
Delimit Scope js_scope with js.
Notation "'let?' x ':=' c 'in' k" := (and_then c (fun x => k))
  (at level 10, x name, c at level 100, k at level 200) : js_scope.
Open Scope js_scope.

(** A row of a table, and a plain object: column (property) names with
    their values. *)
Definition row : Type := list (string * json).

Fixpoint assoc (k : string) (fs : list (string * json)) : option json :=
  match fs with
  | [] => None
  | (k', v) :: fs' => if String.eqb k k' then Some v else assoc k fs'
  end.

(** [r.k] on a row object: a missing property reads as [undefined]. *)
Definition row_get (r : row) (k : string) : json :=
  match assoc k r with Some v => v | None => JUndefined end.

(** [v.k]: reading a property of [undefined] or [null] throws; a missing
    property reads as [undefined].  None of the property names the
    server reads is a built-in of strings, numbers or arrays. *)
Definition js_get (v : json) (k : string) : outcome json :=
  match v with
  | JUndefined => Throw (TypeError ("Cannot read property '" ++ k ++ "' of undefined"))
  | JNull => Throw (TypeError ("Cannot read property '" ++ k ++ "' of null"))
  | JObj fs => Ret (row_get fs k)
  | _ => Ret JUndefined
  end.

(** [v[0]]. *)
Definition js_first (v : json) : outcome json :=
  match v with
  | JUndefined => Throw (TypeError "Cannot read property '0' of undefined")
  | JNull => Throw (TypeError "Cannot read property '0' of null")
  | JArr items => Ret (match items with x :: _ => x | [] => JUndefined end)
  | JStr (String c _) => Ret (JStr (String c EmptyString))
  | JObj fs => Ret (row_get fs "0")
  | _ => Ret JUndefined
  end.

(** [rows[0]] on the array of rows of a query result. *)
Definition rows_first (rs : list row) : json :=
  match rs with r :: _ => JObj r | [] => JUndefined end.

(** [s.slice(0, 15)] on a string. *)
Definition slice_0_15 (s : string) : string := substring 0 15 s.

(** [a.slice(0, 2)] on an array. *)
Definition slice_0_2 {A : Type} (a : list A) : list A := firstn 2 a.

(** ** The store ([schema.sql]) *)

(** A table: its rows in insertion order and the last value drawn from
    the sequence behind its [id SERIAL PRIMARY KEY]. *)
Record Table : Type := mkTable { serial : Z; rows : list row }.

Definition empty_table : Table := mkTable 0 [].

(** The five tables [schema.sql] creates. *)
Definition schema : gmap string Table :=
  <["locations" := empty_table]>
  (<["weathers" := empty_table]>
  (<["events" := empty_table]>
  (<["movies" := empty_table]>
  (<["yelp" := empty_table]> ∅)))).

(** The engine's verdict on an INSERT: the row is stored; or it collides
    with a unique constraint; or it is refused (a column type or length,
    a NOT NULL or FOREIGN KEY constraint, a lost connection). *)
Inductive verdict : Type := Stored | Conflict | Refused.

(** ** Requests, responses *)

(** [request.query.data] of the resource routes: the location record the
    client got from [/location]. *)
Record Data : Type := mkData {
  id : Z;
  search_query : json;
  formatted_query : json;
  latitude : json;
  longitude : json
}.

(** The GET requests sent to the providers, by their URL template and
    the values put into it. *)
Inductive Request : Type :=
| Geocode (address : string)
| DarkSky (lat lng : json)
| Eventbrite (address : json)
| TheMovieDb (query : json)
| YelpSearch (lat lng : json).

(** The objects the constructors build. *)
Record LocationObj : Type := mkLocation {
  l_tableName : string;
  l_search_query : string;
  l_formatted_query : json;
  l_latitude : json;
  l_longitude : json;
  l_id : json
}.

Record WeatherObj : Type := mkWeather {
  w_tableName : string;
  w_forecast : json;
  w_time : string;
  w_created_at : Z
}.

Record EventObj : Type := mkEvent {
  e_tableName : string;
  e_link : json;
  e_name : json;
  e_event_date : string;
  e_summary : json
}.

Record MovieObj : Type := mkMovie {
  m_tableName : string;
  m_title : json;
  m_overview : json;
  m_average_votes : json;
  m_total_votes : json;
  m_image_url : string;
  m_popularity : json;
  m_released_on : json
}.

Record YelpObj : Type := mkYelp {
  y_tableName : string;
  y_name : json;
  y_image_url : json;
  y_price : json;
  y_rating : json;
  y_url : json
}.

(** What [response.send] is given. *)
Inductive Body : Type :=
| BRow (r : json)
| BRows (rs : list row)
| BLocation (l : LocationObj)
| BWeathers (ws : list WeatherObj)
| BEvents (es : list EventObj)
| BMovies (ms : list MovieObj)
| BYelps (ys : list YelpObj).

Inductive Reply : Type :=
| Send (b : Body)
| Status500 (text : string).

(** Number of items of a response that carries a list. *)
Definition reply_items (r : Reply) : nat :=
  match r with
  | Send (BRows rs) => length rs
  | Send (BWeathers ws) => length ws
  | Send (BEvents es) => length es
  | Send (BMovies ms) => length ms
  | Send (BYelps ys) => length ys
  | Send (BRow _) | Send (BLocation _) => 1
  | Status500 _ => 0
  end.

Inductive LogLine : Type :=
| LogError (e : exn)
| LogInfo (text : string) (v : json).

(** ** The world of a request *)

Record World : Type := mkWorld {
  db : gmap string Table;
  reads : nat;
  calls : list Request;
  sent : list Reply;
  console : list LogLine
}.

Definition set_db (d : gmap string Table) (w : World) : World :=
  mkWorld d (reads w) (calls w) (sent w) (console w).

(** The runtime and the services around the server. *)
Record Host : Type := mkHost {
  (** the body of the provider's answer to the [n]-th request issued, or
      [None] when the request fails *)
  provider : nat -> Request -> option json;
  (** [Date.now()] at its [n]-th read *)
  clock : nat -> Z;
  (** [new Date(ms).toString()]; [None] is NaN *)
  date_of_number : option Q -> string;
  (** [new Date(v).toString()] *)
  date_of_value : json -> string;
  (** ToNumber on strings, arrays and objects; [None] is NaN *)
  to_number_host : json -> option Q;
  (** ToString on numbers, arrays and objects *)
  to_string_host : json -> string;
  (** the verdict on inserting a row into a table with the given rows *)
  engine : string -> row -> list row -> verdict
}.

(** ToNumber. *)
Definition to_number (h : Host) (v : json) : option Q :=
  match v with
  | JNum q => Some q
  | JNull => Some 0%Q
  | JBool true => Some 1%Q
  | JBool false => Some 0%Q
  | JUndefined => None
  | _ => to_number_host h v
  end.

(** ToString, as string concatenation applies it. *)
Definition to_string (h : Host) (v : json) : string :=
  match v with
  | JStr s => s
  | JUndefined => "undefined"
  | JNull => "null"
  | JBool true => "true"
  | JBool false => "false"
  | _ => to_string_host h v
  end.

(** [a - b], [a * b] and [a > b] on numbers; NaN compares false. *)
Definition js_sub (a b : option Q) : option Q :=
  match a, b with Some x, Some y => Some (x - y)%Q | _, _ => None end.

Definition js_mul (a b : option Q) : option Q :=
  match a, b with Some x, Some y => Some (x * y)%Q | _, _ => None end.

Definition js_gt (a b : option Q) : bool :=
  match a, b with Some x, Some y => negb (Qle_bool x y) | _, _ => false end.

(** ** The monad of handlers *)

Definition M (A : Type) : Type := World -> outcome A * World.

Definition ret {A : Type} (a : A) : M A := fun w => (Ret a, w).

Definition bind {A B : Type} (m : M A) (k : A -> M B) : M B :=
  fun w =>
    match m w with
    | (Ret a, w') => k a w'
    | (Throw e, w') => (Throw e, w')
    end.

(** [.catch(handler)] *)
Definition catch {A : Type} (m : M A) (handler : exn -> M A) : M A :=
  fun w =>
    match m w with
    | (Ret a, w') => (Ret a, w')
    | (Throw e, w') => handler e w'
    end.

(** A promise nobody awaits: its effects take place, its value or
    rejection is dropped. *)
Definition forget {A : Type} (m : M A) : M unit :=
  fun w => (Ret tt, snd (m w)).

Definition lift {A : Type} (o : outcome A) : M A := fun w => (o, w).

Notation "'let!' x ':=' c 'in' k" := (bind c (fun x => k))
  (at level 10, x name, c at level 100, k at level 200) : js_scope.
Notation "'do!' c 'in' k" := (bind c (fun _ => k))
  (at level 10, c at level 100, k at level 200) : js_scope.

(** [a.map(f)]: only an array has [map]. *)
Definition array_items (v : json) : outcome (list json) :=
  match v with
  | JArr items => Ret items
  | JUndefined => Throw (TypeError "Cannot read property 'map' of undefined")
  | JNull => Throw (TypeError "Cannot read property 'map' of null")
  | _ => Throw (TypeError "map is not a function")
  end.

Fixpoint map_items {A : Type} (f : json -> M A) (items : list json) : M (list A) :=
  match items with
  | [] => ret []
  | x :: items' =>
      let! y := f x in
      let! ys := map_items f items' in
      ret (y :: ys)
  end.

Definition js_map {A : Type} (v : json) (f : json -> M A) : M (list A) :=
  let! items := lift (array_items v) in
  map_items f items.

(** [response.send], [console.error], [console.log]. *)
Definition response_send (b : Body) : M unit :=
  fun w => (Ret tt, mkWorld (db w) (reads w) (calls w) (sent w ++ [Send b]) (console w)).

Definition response_status_500_send (text : string) : M unit :=
  fun w => (Ret tt, mkWorld (db w) (reads w) (calls w) (sent w ++ [Status500 text]) (console w)).

Definition console_error (e : exn) : M unit :=
  fun w => (Ret tt, mkWorld (db w) (reads w) (calls w) (sent w) (console w ++ [LogError e])).

Definition console_log (text : string) (v : json) : M unit :=
  fun w => (Ret tt, mkWorld (db w) (reads w) (calls w) (sent w) (console w ++ [LogInfo text v])).

(** ** Queries ([client.query]) *)

Definition no_relation (t : string) : exn :=
  QueryError ("relation " ++ t ++ " does not exist").

(** [SELECT * FROM t WHERE ...] *)
Definition select_where (t : string) (cond : row -> bool) : M (list row) :=
  fun w =>
    match db w !! t with
    | Some tb => (Ret (List.filter cond (rows tb)), w)
    | None => (Throw (no_relation t), w)
    end.

(** [DELETE from t WHERE ...] *)
Definition delete_where (t : string) (cond : row -> bool) : M unit :=
  fun w =>
    match db w !! t with
    | Some tb =>
        let kept := List.filter (fun r => negb (cond r)) (rows tb) in
        (Ret tt, set_db (<[t := mkTable (serial tb) kept]> (db w)) w)
    | None => (Throw (no_relation t), w)
    end.

(** [INSERT INTO t (columns) VALUES (values)], with or without
    [ON CONFLICT DO NOTHING] and [RETURNING id].  The sequence of [id]
    advances whatever the verdict; the result carries the rows that
    RETURNING yields. *)
Definition insert_into (h : Host) (t : string) (columns : list string)
    (values : list json) (on_conflict_do_nothing returning_id : bool)
    : M (list row) :=
  fun w =>
    match db w !! t with
    | None => (Throw (no_relation t), w)
    | Some tb =>
        let n := serial tb + 1 in
        let r := ("id", JNum (inject_Z n)) :: combine columns values in
        match engine h t r (rows tb) with
        | Stored =>
            (Ret (if returning_id then [[("id", JNum (inject_Z n))]] else []),
             set_db (<[t := mkTable n (rows tb ++ [r])]> (db w)) w)
        | Conflict =>
            (if on_conflict_do_nothing then Ret []
             else Throw (QueryError "duplicate key value violates unique constraint"),
             set_db (<[t := mkTable n (rows tb)]> (db w)) w)
        | Refused =>
            (Throw (QueryError "insert refused"),
             set_db (<[t := mkTable n (rows tb)]> (db w)) w)
        end
    end.

(** [WHERE location_id=$1] and [WHERE search_query=$1]. *)
Definition location_id_is (location : Z) (r : row) : bool :=
  match row_get r "location_id" with
  | JNum q => Qeq_bool q (inject_Z location)
  | _ => false
  end.

Definition search_query_is (query : string) (r : row) : bool :=
  match row_get r "search_query" with
  | JStr s => String.eqb s query
  | _ => false
  end.

(** [superagent.get(url)]: the request is recorded; a failed request
    rejects. *)
Definition superagent_get (h : Host) (url : Request) : M json :=
  fun w =>
    let w' := mkWorld (db w) (reads w) (calls w ++ [url]) (sent w) (console w) in
    match provider h (length (calls w)) url with
    | Some body => (Ret body, w')
    | None => (Throw HttpError, w')
    end.

(** [Date.now()] *)
Definition Date_now (h : Host) : M Z :=
  fun w =>
    (Ret (clock h (reads w)),
     mkWorld (db w) (S (reads w)) (calls w) (sent w) (console w)).

(** ** [server.js] *)

(** [handleError(err, res)]; [res] tells whether a response object was
    passed. *)
Definition handleError (err : exn) (res : bool) : M unit :=
  do! console_error err in
  if res then response_status_500_send "Sorry, something went wrong" else ret tt.

(** [lookup(options)], with the fields of [options] it reads. *)
Definition lookup (tableName : string) (location : Z)
    (cacheHit : list row -> M unit) (cacheMiss : M unit) : M unit :=
  catch
    (let! result := select_where tableName (location_id_is location) in
     if (0 <? length result)%nat then cacheHit result else cacheMiss)
    (fun error => handleError error false).

Definition deleteByLocationId (table : string) (city : Z) : M unit :=
  delete_where table (location_id_is city).

Definition timeouts_weathers : Q := inject_Z (15 * 1000).

(** [v.k] inside a handler. *)
Definition get (v : json) (k : string) : M json := lift (js_get v k).

Definition num (z : Z) : json := JNum (inject_Z z).

(** *** Location *)

Module Location.

(** [res.body.results[0]] *)
Definition first_result (body : json) : outcome json :=
  let? results := js_get body "results" in
  js_first results.

(** [new Location(query, res)] *)
Definition new (query : string) (body : json) : outcome LocationObj :=
  let? r := first_result body in
  let? formatted_address := js_get r "formatted_address" in
  let? r := first_result body in
  let? geometry := js_get r "geometry" in
  let? location := js_get geometry "location" in
  let? lat := js_get location "lat" in
  let? r := first_result body in
  let? geometry := js_get r "geometry" in
  let? location := js_get geometry "location" in
  let? lng := js_get location "lng" in
  Ret (mkLocation "locations" query formatted_address lat lng JUndefined).

Definition lookupLocation (query : string)
    (cacheHit : list row -> M unit) (cacheMiss : M unit) : M unit :=
  catch
    (let! result := select_where "locations" (search_query_is query) in
     if (0 <? length result)%nat then cacheHit result else cacheMiss)
    (fun error => console_error error).

Definition save (h : Host) (this : LocationObj) : M LocationObj :=
  let! result :=
    insert_into h "locations"
      ["search_query"; "formatted_query"; "latitude"; "longitude"]
      [JStr (l_search_query this); l_formatted_query this;
       l_latitude this; l_longitude this]
      true true in
  let! i := get (rows_first result) "id" in
  ret (mkLocation (l_tableName this) (l_search_query this)
         (l_formatted_query this) (l_latitude this) (l_longitude this) i).

End Location.

Definition getLocation (h : Host) (query : string) : M unit :=
  Location.lookupLocation query
    (fun result => response_send (BRow (rows_first result)))
    (catch
       (let! result := superagent_get h (Geocode query) in
        let! location := lift (Location.new query result) in
        forget
          (let! location := Location.save h location in
           response_send (BLocation location)))
       (fun error => handleError error false)).

(** *** Weather *)

Module Weather.

(** [new Weather(day)] *)
Definition new (h : Host) (day : json) : M WeatherObj :=
  let! summary := get day "summary" in
  let! time := get day "time" in
  let! now := Date_now h in
  ret (mkWeather "weathers" summary
         (slice_0_15
            (date_of_number h (js_mul (to_number h time) (Some (inject_Z 1000)))))
         now).

Definition tableName : string := "weathers".
Definition lookup := lookup.
Definition deleteByLocationId := deleteByLocationId.

Definition save (h : Host) (this : WeatherObj) (location_id : Z) : M unit :=
  forget
    (insert_into h (w_tableName this)
       ["forecast"; "time"; "created_at"; "location_id"]
       [w_forecast this; JStr (w_time this); num (w_created_at this);
        num location_id]
       false false).

End Weather.

(** The [cacheMiss] of the options [getWeather] passes; its [cacheHit]
    calls it as [this.cacheMiss()]. *)
Definition getWeather_cacheMiss (h : Host) (data : Data) : M unit :=
  catch
    (let! result := superagent_get h (DarkSky (latitude data) (longitude data)) in
     let! daily := get result "daily" in
     let! days := get daily "data" in
     let! weatherSummaries :=
       js_map days (fun day =>
         let! summary := Weather.new h day in
         do! Weather.save h summary (id data) in
         ret summary) in
     response_send (BWeathers weatherSummaries))
    (fun error => handleError error true).

Definition getWeather (h : Host) (data : Data) : M unit :=
  Weather.lookup Weather.tableName (id data)
    (fun result =>
       let! now := Date_now h in
       let! created_at := get (rows_first result) "created_at" in
       let ageOfResults := js_sub (Some (inject_Z now)) (to_number h created_at) in
       if js_gt ageOfResults (Some timeouts_weathers) then
         do! console_log "Invalid weather data for location: " (search_query data) in
         do! forget (Weather.deleteByLocationId Weather.tableName (id data)) in
         getWeather_cacheMiss h data
       else response_send (BRows result))
    (getWeather_cacheMiss h data).

(** *** Events *)

Module Event.

(** [new Event(event)] *)
Definition new (h : Host) (event : json) : outcome EventObj :=
  let? url := js_get event "url" in
  let? name := js_get event "name" in
  let? text := js_get name "text" in
  let? start := js_get event "start" in
  let? local := js_get start "local" in
  let? summary := js_get event "summary" in
  Ret (mkEvent "events" url text (slice_0_15 (date_of_value h local)) summary).

Definition tableName : string := "events".
Definition lookup := lookup.

Definition save (h : Host) (this : EventObj) (location_id : Z) : M unit :=
  forget
    (insert_into h (e_tableName this)
       ["link"; "name"; "event_date"; "summary"; "location_id"]
       [e_link this; e_name this; JStr (e_event_date this); e_summary this;
        num location_id]
       false false).

End Event.

Definition getEvents (h : Host) (data : Data) : M unit :=
  Event.lookup Event.tableName (id data)
    (fun result => response_send (BRows result))
    (catch
       (let! result := superagent_get h (Eventbrite (formatted_query data)) in
        let! items := get result "events" in
        let! events :=
          js_map items (fun eventData =>
            let! event := lift (Event.new h eventData) in
            do! Event.save h event (id data) in
            ret event) in
        response_send (BEvents (slice_0_2 events)))
       (fun error => handleError error true)).

(** *** Movies *)

Module Movie.

(** [new Movie(res)] *)
Definition new (h : Host) (res : json) : outcome MovieObj :=
  let? title := js_get res "title" in
  let? overview := js_get res "overview" in
  let? vote_average := js_get res "vote_average" in
  let? vote_count := js_get res "vote_count" in
  let? poster_path := js_get res "poster_path" in
  let? popularity := js_get res "popularity" in
  let? release_date := js_get res "release_date" in
  Ret (mkMovie "movies" title overview vote_average vote_count
         ("https://image.tmdb.org/t/p/w185/" ++ to_string h poster_path)
         popularity release_date).

Definition tableName : string := "movies".
Definition lookup := lookup.

Definition save (h : Host) (this : MovieObj) (location_id : Z) : M unit :=
  forget
    (insert_into h (m_tableName this)
       ["title"; "overview"; "average_votes"; "total_votes"; "image_url";
        "popularity"; "released_on"; "location_id"]
       [m_title this; m_overview this; m_average_votes this;
        m_total_votes this; JStr (m_image_url this); m_popularity this;
        m_released_on this; num location_id]
       false false).

End Movie.

Definition getMovies (h : Host) (data : Data) : M unit :=
  Event.lookup Movie.tableName (id data)
    (fun result => response_send (BRows result))
    (catch
       (let! result := superagent_get h (TheMovieDb (search_query data)) in
        let! results := get result "results" in
        let! movieEnties :=
          js_map results (fun mov =>
            let! movies := lift (Movie.new h mov) in
            do! Movie.save h movies (id data) in
            ret movies) in
        response_send (BMovies (slice_0_2 movieEnties)))
       (fun error => handleError error true)).

(** *** Yelp *)

Module Yelp.

(** [new Yelp(res)] *)
Definition new (res : json) : outcome YelpObj :=
  let? name := js_get res "name" in
  let? image_url := js_get res "image_url" in
  let? price := js_get res "price" in
  let? rating := js_get res "rating" in
  let? url := js_get res "url" in
  Ret (mkYelp "yelp" name image_url price rating url).

Definition tableName : string := "yelp".
Definition lookup := lookup.

Definition save (h : Host) (this : YelpObj) (location_id : Z) : M unit :=
  forget
    (insert_into h (y_tableName this)
       ["name"; "url"; "image_url"; "rating"; "price"; "location_id"]
       [y_name this; y_url this; y_image_url this; y_rating this;
        y_price this; num location_id]
       false false).

End Yelp.

Definition getYelp (h : Host) (data : Data) : M unit :=
  Yelp.lookup Yelp.tableName (id data)
    (fun result => response_send (BRows result))
    (catch
       (let! result := superagent_get h (YelpSearch (latitude data) (longitude data)) in
        let! businesses := get result "businesses" in
        let! yelpEnties :=
          js_map businesses (fun ylp =>
            let! yelps := lift (Yelp.new ylp) in
            do! Yelp.save h yelps (id data) in
            ret yelps) in
        response_send (BYelps (slice_0_2 yelpEnties)))
       (fun error => handleError error true)).

(** ** Notions the statements use *)

(** The rows [SELECT * FROM t WHERE location_id=$1] yields in a world. *)
Definition stored_rows (t : string) (location : Z) (w : World) : list row :=
  match db w !! t with
  | Some tb => List.filter (location_id_is location) (rows tb)
  | None => []
  end.

(** The rows [SELECT * FROM locations WHERE search_query=$1] yields. *)
Definition stored_locations (query : string) (w : World) : list row :=
  match db w !! "locations" with
  | Some tb => List.filter (search_query_is query) (rows tb)
  | None => []
  end.

(** All rows of a table. *)
Definition table_rows (t : string) (w : World) : list row :=
  match db w !! t with
  | Some tb => rows tb
  | None => []
  end.

(** The store after an INSERT into [t] of the columns-and-values [cv]
    was attempted. *)
Definition after_insert (h : Host) (t : string) (cv : row)
    (d : gmap string Table) : gmap string Table :=
  match d !! t with
  | None => d
  | Some tb =>
      let n := serial tb + 1 in
      let r := ("id", num n) :: cv in
      <[t := mkTable n
               match engine h t r (rows tb) with
               | Stored => rows tb ++ [r]
               | _ => rows tb
               end]> d
  end.


(** [a.map(f)] for an [f] without effects, and the items it got through
    before the first throw. *)
Fixpoint traverse {A : Type} (f : json -> outcome A) (items : list json)
    : outcome (list A) :=
  match items with
  | [] => Ret []
  | x :: items' =>
      let? y := f x in
      let? ys := traverse f items' in
      Ret (y :: ys)
  end.

Fixpoint built {A : Type} (f : json -> outcome A) (items : list json) : list A :=
  match items with
  | [] => []
  | x :: items' =>
      match f x with
      | Ret y => y :: built f items'
      | Throw _ => []
      end
  end.

(** The items of the array under [field] of a provider answer. *)
Definition payload_items (field : string) (payload : option json)
    : outcome (list json) :=
  match payload with
  | None => Throw HttpError
  | Some body =>
      let? v := js_get body field in
      array_items v
  end.

(** The columns and values each [save] writes. *)
Definition weather_row (o : WeatherObj) (location_id : Z) : row :=
  [("forecast", w_forecast o); ("time", JStr (w_time o));
   ("created_at", num (w_created_at o)); ("location_id", num location_id)].

Definition event_row (o : EventObj) (location_id : Z) : row :=
  [("link", e_link o); ("name", e_name o); ("event_date", JStr (e_event_date o));
   ("summary", e_summary o); ("location_id", num location_id)].

Definition movie_row (o : MovieObj) (location_id : Z) : row :=
  [("title", m_title o); ("overview", m_overview o);
   ("average_votes", m_average_votes o); ("total_votes", m_total_votes o);
   ("image_url", JStr (m_image_url o)); ("popularity", m_popularity o);
   ("released_on", m_released_on o); ("location_id", num location_id)].

Definition yelp_row (o : YelpObj) (location_id : Z) : row :=
  [("name", y_name o); ("url", y_url o); ("image_url", y_image_url o);
   ("rating", y_rating o); ("price", y_price o); ("location_id", num location_id)].

Definition location_row (o : LocationObj) : row :=
  [("search_query", JStr (l_search_query o));
   ("formatted_query", l_formatted_query o);
   ("latitude", l_latitude o); ("longitude", l_longitude o)].

(** The store after [DELETE from t WHERE location_id=...]. *)
Definition after_delete (t : string) (location : Z) (d : gmap string Table)
    : gmap string Table :=
  match d !! t with
  | Some tb =>
      <[t := mkTable (serial tb)
               (List.filter (fun r => negb (location_id_is location r)) (rows tb))]> d
  | None => d
  end.

(** The object [new Weather(day)] builds when the clock reads [now]. *)
Definition Weather_at (h : Host) (day : json) (now : Z) : outcome WeatherObj :=
  let? summary := js_get day "summary" in
  let? time := js_get day "time" in
  Ret (mkWeather "weathers" summary
         (slice_0_15
            (date_of_number h (js_mul (to_number h time) (Some (inject_Z 1000)))))
         now).

(** Mapping [new Weather] over the days, the clock having been read [n]
    times before. *)
Fixpoint forecast (h : Host) (n : nat) (days : list json)
    : outcome (list WeatherObj) :=
  match days with
  | [] => Ret []
  | day :: days' =>
      let? o := Weather_at h day (clock h n) in
      let? os := forecast h (S n) days' in
      Ret (o :: os)
  end.

Fixpoint forecast_built (h : Host) (n : nat) (days : list json) : list WeatherObj :=
  match days with
  | [] => []
  | day :: days' =>
      match Weather_at h day (clock h n) with
      | Ret o => o :: forecast_built h (S n) days'
      | Throw _ => []
      end
  end.

(** The days of a weather provider answer. *)
Definition weather_days (payload : option json) : outcome (list json) :=
  match payload with
  | None => Throw HttpError
  | Some body =>
      let? daily := js_get body "daily" in
      let? days := js_get daily "data" in
      array_items days
  end.

Definition forecast_mapped (h : Host) (n : nat) (days : outcome (list json))
    : list WeatherObj :=
  match days with
  | Ret l => forecast_built h n l
  | Throw _ => []
  end.

(** The age [cacheHit] of [getWeather] computes for a first row [r]
    when the clock reads [now]. *)
Definition age_of (h : Host) (now : Z) (r : row) : option Q :=
  js_sub (Some (inject_Z now)) (to_number h (row_get r "created_at")).

(** The three resources whose responses are sliced. *)
Inductive resource : Type := Events | Movies | Businesses.

Definition table_of (r : resource) : string :=
  match r with
  | Events => Event.tableName
  | Movies => Movie.tableName
  | Businesses => Yelp.tableName
  end.

Definition handler (h : Host) (r : resource) : Data -> M unit :=
  match r with
  | Events => getEvents h
  | Movies => getMovies h
  | Businesses => getYelp h
  end.

Definition request_of (r : resource) (data : Data) : Request :=
  match r with
  | Events => Eventbrite (formatted_query data)
  | Movies => TheMovieDb (search_query data)
  | Businesses => YelpSearch (latitude data) (longitude data)
  end.

(** The routes of the application, and the world after a list of
    requests was served, one request after the other. *)
Inductive request : Type :=
| GetLocation (query : string)
| GetWeather (data : Data)
| GetEvents (data : Data)
| GetMovies (data : Data)
| GetYelp (data : Data).

Definition route (h : Host) (q : request) : M unit :=
  match q with
  | GetLocation query => getLocation h query
  | GetWeather data => getWeather h data
  | GetEvents data => getEvents h data
  | GetMovies data => getMovies h data
  | GetYelp data => getYelp h data
  end.

Definition after_requests (h : Host) (qs : list request) (w : World) : World :=
  fold_left (fun w q => snd (route h q w)) qs w.

(** The rows of location [location] in table [t] of a store. *)
Definition rows_at (t : string) (location : Z) (d : gmap string Table) : list row :=
  match d !! t with
  | Some tb => List.filter (location_id_is location) (rows tb)
  | None => []
  end.

(** [getMovies] as it would read with [Movie.lookup]. *)
Definition getMovies_with_Movie_lookup (h : Host) (data : Data) : M unit :=
  Movie.lookup Movie.tableName (id data)
    (fun result => response_send (BRows result))
    (catch
       (let! result := superagent_get h (TheMovieDb (search_query data)) in
        let! results := get result "results" in
        let! movieEnties :=
          js_map results (fun mov =>
            let! movies := lift (Movie.new h mov) in
            do! Movie.save h movies (id data) in
            ret movies) in
        response_send (BMovies (slice_0_2 movieEnties)))
       (fun error => handleError error true)).

(** The response to a fetch whose mapped items are [o], and what the
    error handler writes to the console. *)
Definition sliced_reply {A : Type} (wrap : list A -> Body) (o : outcome (list A))
    : Reply :=
  match o with
  | Ret ys => Send (wrap (slice_0_2 ys))
  | Throw _ => Status500 "Sorry, something went wrong"
  end.

Definition full_reply {A : Type} (wrap : list A -> Body) (o : outcome (list A))
    : Reply :=
  match o with
  | Ret ys => Send (wrap ys)
  | Throw _ => Status500 "Sorry, something went wrong"
  end.

Definition logged {A : Type} (o : outcome A) : list LogLine :=
  match o with
  | Ret _ => []
  | Throw e => [LogError e]
  end.

(** The items a fetch maps: all of them, or those before the throw. *)
Definition mapped {A : Type} (f : json -> outcome A) (items : outcome (list json))
    : list A :=
  match items with
  | Ret l => built f l
  | Throw _ => []
  end.

(** The store after the rows of the objects [os] went through INSERT. *)
Definition after_saves {A : Type} (h : Host) (tbl : A -> string) (cv : A -> row)
    (os : list A) (d : gmap string Table) : gmap string Table :=
  fold_left (fun d o => after_insert h (tbl o) (cv o) d) os d.

(** The provider field each of the three fetches maps. *)
Definition payload_field (r : resource) : string :=
  match r with
  | Events => "events"
  | Movies => "results"
  | Businesses => "businesses"
  end.

(** The items the provider hands to a fetch started in world [w]. *)
Definition fetched_items (h : Host) (r : resource) (data : Data) (w : World)
    : outcome (list json) :=
  payload_items (payload_field r)
    (provider h (length (calls w)) (request_of r data)).

(** The same host with another database engine. *)
Definition with_engine (e : string -> row -> list row -> verdict) (h : Host) : Host :=
  mkHost (provider h) (clock h) (date_of_number h) (date_of_value h)
    (to_number_host h) (to_string_host h) e.

(** The same host with another clock. *)
Definition with_clock (c : nat -> Z) (h : Host) : Host :=
  mkHost (provider h) c (date_of_number h) (date_of_value h)
    (to_number_host h) (to_string_host h) (engine h).

(** ** Sample data *)

Definition seattle : Data :=
  mkData 1 (JStr "seattle") (JStr "Seattle, WA, USA")
    (JNum (476062095 # 10000000)) (JNum (-1223320708 # 10000000)).

Definition sample_event (name : string) : json :=
  JObj [("url", JStr ("https://www.eventbrite.com/e/" ++ name));
        ("name", JObj [("text", JStr name)]);
        ("start", JObj [("local", JStr "2019-06-01T10:00:00")]);
        ("summary", JStr "An evening out")].

Definition sample_events : json :=
  JObj [("events", JArr [sample_event "jazz"; sample_event "opera"; sample_event "rock"])].


Definition sample_day : json :=
  JObj [("summary", JStr "Light rain in the morning."); ("time", JNum (inject_Z 1559372400))].

Definition sample_forecast : json :=
  JObj [("daily", JObj [("data", JArr [sample_day; sample_day])])].

Definition sample_geocode : json :=
  JObj [("results",
         JArr [JObj [("formatted_address", JStr "Seattle, WA, USA");
                     ("geometry",
                      JObj [("location",
                             JObj [("lat", JNum (476062095 # 10000000));
                                   ("lng", JNum (-1223320708 # 10000000))])])]])].

Definition no_results : json := JObj [("results", JArr [])].

(** A host whose providers all answer [answer], whose clock starts at
    [start] and advances by [step] at each read, and whose engine gives
    the verdict [v] on every INSERT. *)
Definition sample_host (answer : option json) (start step : Z) (v : verdict) : Host :=
  mkHost (fun _ _ => answer)
    (fun n => start + step * Z.of_nat n)
    (fun _ => "Sat Jun 01 2019 07:00:00 GMT-0700 (Pacific Daylight Time)")
    (fun _ => "Sat Jun 01 2019 10:00:00 GMT-0700 (Pacific Daylight Time)")
    (fun _ => None)
    (fun _ => "[object Object]")
    (fun _ _ _ => v).

(** The store right after [schema.sql] ran; nothing has happened yet. *)
Definition fresh_world : World := mkWorld schema 0 [] [] [].

(** A world that holds one weather row of location 1, created at 1000. *)
Definition rainy_world : World :=
  mkWorld
    (<["weathers" :=
        mkTable 1 [[("id", num 1); ("forecast", JStr "Rain"); ("time", JStr "Sat Jun 01 2019");
                    ("created_at", num 1000); ("location_id", num 1)]]]> schema)
    0 [] [] [].

(** A world that holds one event row of location 1. *)
Definition eventful_world : World :=
  mkWorld
    (<["events" :=
        mkTable 1 [[("id", num 1); ("link", JStr "https://www.eventbrite.com/e/jazz");
                    ("name", JStr "jazz"); ("event_date", JStr "Sat Jun 01 2019");
                    ("summary", JStr "An evening out"); ("location_id", num 1)]]]> schema)
    0 [] [] [].

(** Requests on several routes, for Seattle and for another location. *)
Definition sample_requests : list request :=
  [GetEvents seattle; GetWeather seattle; GetLocation "seattle";
   GetEvents (mkData 2 (JStr "tacoma") (JStr "Tacoma, WA, USA")
                (JNum (47 # 1)) (JNum (-122 # 1)))].

(** The number of items a fetch of resource [r] turns into objects: all
    of them, or those before the first item its constructor throws on. *)
Definition mapped_count (h : Host) (r : resource) (items : list json) : nat :=
  match r with
  | Events => length (built (Event.new h) items)
  | Movies => length (built (Movie.new h) items)
  | Businesses => length (built Yelp.new items)
  end.

(** The table a route reads and writes. *)
Definition table_of_route (q : request) : string :=
  match q with
  | GetLocation _ => "locations"
  | GetWeather _ => Weather.tableName
  | GetEvents _ => Event.tableName
  | GetMovies _ => Movie.tableName
  | GetYelp _ => Yelp.tableName
  end.

(** The text of the 500 response. *)
Definition sorry : Reply := Status500 "Sorry, something went wrong".

(** [undefined] and [null], the two values whose properties cannot be
    read. *)
Definition is_nullish (v : json) : bool :=
  match v with
  | JUndefined | JNull => true
  | _ => false
  end.

(** What [v.k] evaluates to when it does not throw. *)
Definition field (v : json) (k : string) : json :=
  match v with
  | JObj fs => row_get fs k
  | _ => JUndefined
  end.

(** The response that carries an empty list of items of resource [r]. *)
Definition empty_reply (r : resource) : Reply :=
  match r with
  | Events => Send (BEvents [])
  | Movies => Send (BMovies [])
  | Businesses => Send (BYelps [])
  end.

(** What a request adds to the responses sent and to the provider
    requests issued: at most one of each. *)
Definition at_most_one_each (w w' : World) : Prop :=
  exists replies requests,
    sent w' = sent w ++ replies /\ (length replies <= 1)%nat
    /\ calls w' = calls w ++ requests /\ (length requests <= 1)%nat.

(** A world whose locations table holds one row, of the query
    "seattle". *)
Definition seattle_world : World :=
  mkWorld
    (<["locations" :=
        mkTable 1 [[("id", num 1); ("search_query", JStr "seattle");
                    ("formatted_query", JStr "Seattle, WA, USA")]]]> schema)
    0 [] [] [].

(** ** Basic facts *)

Lemma set_db_same w : set_db (db w) w = w.
Proof. by destruct w. Qed.

Lemma bind_run {A B : Type} (m : M A) (k : A -> M B) w :
  bind m k w
  = match m w with
    | (Ret a, w') => k a w'
    | (Throw e, w') => (Throw e, w')
    end.
Proof. reflexivity. Qed.

Lemma catch_run {A : Type} (m : M A) (handler : exn -> M A) w :
  catch m handler w
  = match m w with
    | (Ret a, w') => (Ret a, w')
    | (Throw e, w') => handler e w'
    end.
Proof. reflexivity. Qed.

Lemma insert_into_world h t columns values oc ri w :
  snd (insert_into h t columns values oc ri w)
  = set_db (after_insert h t (combine columns values) (db w)) w.
Proof.
  unfold insert_into, after_insert.
  destruct (db w !! t) as [tb|]; simpl; [|by rewrite set_db_same].
  by destruct (engine h t _ (rows tb)).
Qed.

Lemma Event_save_run h o location w :
  Event.save h o location w
  = (Ret tt, set_db (after_insert h (e_tableName o) (event_row o location) (db w)) w).
Proof. unfold Event.save, forget. by rewrite insert_into_world. Qed.

Lemma Movie_save_run h o location w :
  Movie.save h o location w
  = (Ret tt, set_db (after_insert h (m_tableName o) (movie_row o location) (db w)) w).
Proof. unfold Movie.save, forget. by rewrite insert_into_world. Qed.

Lemma Yelp_save_run h o location w :
  Yelp.save h o location w
  = (Ret tt, set_db (after_insert h (y_tableName o) (yelp_row o location) (db w)) w).
Proof. unfold Yelp.save, forget. by rewrite insert_into_world. Qed.

Lemma Weather_save_run h o location w :
  Weather.save h o location w
  = (Ret tt, set_db (after_insert h (w_tableName o) (weather_row o location) (db w)) w).
Proof. unfold Weather.save, forget. by rewrite insert_into_world. Qed.

(** Mapping a constructor without effects and saving each object: the
    value is the pure traversal, the world changes in its store only. *)
Lemma map_items_saving {A : Type} (g : json -> outcome A) (save : A -> M unit)
    (eff : A -> gmap string Table -> gmap string Table) :
  (forall y w, save y w = (Ret tt, set_db (eff y (db w)) w)) ->
  forall items w,
    map_items (fun x => let! y := lift (g x) in do! save y in ret y) items w
    = (traverse g items,
       set_db (fold_left (fun d y => eff y d) (built g items) (db w)) w).
Proof.
  intros Hsave. induction items as [|x items IH]; intros w; simpl.
  - by rewrite set_db_same.
  - rewrite bind_run, bind_run. unfold lift at 1.
    destruct (g x) as [y|e]; simpl; [|by rewrite set_db_same].
    rewrite bind_run, Hsave. simpl. rewrite bind_run, IH. simpl.
    by destruct (traverse g items).
Qed.

Lemma lookup_found t location cacheHit cacheMiss w tb :
  db w !! t = Some tb ->
  lookup t location cacheHit cacheMiss w
  = catch
      (let rs := List.filter (location_id_is location) (rows tb) in
       if (0 <? length rs)%nat then cacheHit rs else cacheMiss)
      (fun error => handleError error false) w.
Proof.
  intros Ht. unfold lookup, catch, bind, select_where. by rewrite Ht.
Qed.

Lemma lookup_miss t location cacheHit cacheMiss w :
  is_Some (db w !! t) ->
  stored_rows t location w = [] ->
  lookup t location cacheHit cacheMiss w
  = catch cacheMiss (fun error => handleError error false) w.
Proof.
  intros [tb Ht] Hnone. rewrite (lookup_found _ _ _ _ _ _ Ht).
  unfold stored_rows in Hnone. rewrite Ht in Hnone. by rewrite Hnone.
Qed.

Lemma lookup_hit t location cacheHit cacheMiss w r rs :
  stored_rows t location w = r :: rs ->
  lookup t location cacheHit cacheMiss w
  = catch (cacheHit (r :: rs)) (fun error => handleError error false) w.
Proof.
  intros Hrows. unfold stored_rows in Hrows.
  destruct (db w !! t) as [tb|] eqn:Ht; [|done].
  rewrite (lookup_found _ _ _ _ _ _ Ht). by rewrite Hrows.
Qed.

(** *** What a cache miss does, resource by resource *)

Ltac run_miss save eff Hsave :=
  rewrite catch_run, catch_run, bind_run;
  unfold superagent_get at 1; unfold payload_items, mapped, after_saves;
  destruct (provider _ _ _) as [?|]; simpl; [|reflexivity];
  rewrite bind_run; unfold get; unfold lift at 1;
  match goal with
  | |- context [js_get ?b ?f] => destruct (js_get b f) as [?|]
  end; simpl; [|reflexivity];
  rewrite bind_run; unfold js_map; rewrite bind_run; unfold lift at 1;
  match goal with
  | |- context [array_items ?v] => destruct (array_items v) as [?|]
  end; simpl; [|reflexivity];
  rewrite (map_items_saving _ save eff Hsave); simpl;
  match goal with
  | |- context [traverse ?g ?items] => destruct (traverse g items)
  end; simpl; rewrite ?app_nil_r; reflexivity.

Lemma getEvents_miss h data w :
  is_Some (db w !! "events") ->
  stored_rows "events" (id data) w = [] ->
  let request := Eventbrite (formatted_query data) in
  let items := payload_items "events" (provider h (length (calls w)) request) in
  let result := let? l := items in traverse (Event.new h) l in
  getEvents h data w
  = (Ret tt,
     mkWorld
       (after_saves h e_tableName (fun o => event_row o (id data))
          (mapped (Event.new h) items) (db w))
       (reads w) (calls w ++ [request])
       (sent w ++ [sliced_reply BEvents result])
       (console w ++ logged result)).
Proof.
  intros Ht Hnone. unfold getEvents, Event.lookup.
  rewrite (lookup_miss _ _ _ _ _ Ht Hnone).
  run_miss (fun y => Event.save h y (id data))
    (fun y d => after_insert h (e_tableName y) (event_row y (id data)) d)
    (fun y w0 => Event_save_run h y (id data) w0).
Qed.

Lemma getMovies_miss h data w :
  is_Some (db w !! "movies") ->
  stored_rows "movies" (id data) w = [] ->
  let request := TheMovieDb (search_query data) in
  let items := payload_items "results" (provider h (length (calls w)) request) in
  let result := let? l := items in traverse (Movie.new h) l in
  getMovies h data w
  = (Ret tt,
     mkWorld
       (after_saves h m_tableName (fun o => movie_row o (id data))
          (mapped (Movie.new h) items) (db w))
       (reads w) (calls w ++ [request])
       (sent w ++ [sliced_reply BMovies result])
       (console w ++ logged result)).
Proof.
  intros Ht Hnone. unfold getMovies, Event.lookup.
  rewrite (lookup_miss _ _ _ _ _ Ht Hnone).
  run_miss (fun y => Movie.save h y (id data))
    (fun y d => after_insert h (m_tableName y) (movie_row y (id data)) d)
    (fun y w0 => Movie_save_run h y (id data) w0).
Qed.

Lemma getYelp_miss h data w :
  is_Some (db w !! "yelp") ->
  stored_rows "yelp" (id data) w = [] ->
  let request := YelpSearch (latitude data) (longitude data) in
  let items := payload_items "businesses" (provider h (length (calls w)) request) in
  let result := let? l := items in traverse Yelp.new l in
  getYelp h data w
  = (Ret tt,
     mkWorld
       (after_saves h y_tableName (fun o => yelp_row o (id data))
          (mapped Yelp.new items) (db w))
       (reads w) (calls w ++ [request])
       (sent w ++ [sliced_reply BYelps result])
       (console w ++ logged result)).
Proof.
  intros Ht Hnone. unfold getYelp, Yelp.lookup.
  rewrite (lookup_miss _ _ _ _ _ Ht Hnone).
  run_miss (fun y => Yelp.save h y (id data))
    (fun y d => after_insert h (y_tableName y) (yelp_row y (id data)) d)
    (fun y w0 => Yelp_save_run h y (id data) w0).
Qed.

(** A hit of the three resources without freshness: the rows are sent
    and nothing else happens. *)
Lemma handler_hit h r data w x xs :
  stored_rows (table_of r) (id data) w = x :: xs ->
  handler h r data w
  = (Ret tt,
     mkWorld (db w) (reads w) (calls w) (sent w ++ [Send (BRows (x :: xs))])
       (console w)).
Proof.
  intros Hrows.
  destruct r; simpl in *;
    unfold getEvents, getMovies, getYelp, Event.lookup, Yelp.lookup;
    by rewrite (lookup_hit _ _ _ _ _ _ _ Hrows).
Qed.

(** *** Weather: the constructor reads the clock *)

Lemma Weather_new_run h day w :
  Weather.new h day w
  = match Weather_at h day (clock h (reads w)) with
    | Ret o => (Ret o, mkWorld (db w) (S (reads w)) (calls w) (sent w) (console w))
    | Throw e => (Throw e, w)
    end.
Proof.
  unfold Weather.new, Weather_at, get, lift. rewrite bind_run.
  destruct (js_get day "summary") as [summary|]; simpl; [|done].
  rewrite bind_run.
  destruct (js_get day "time") as [time|]; simpl; done.
Qed.

Lemma map_items_forecast h location days :
  forall w,
    map_items
      (fun day =>
         let! summary := Weather.new h day in
         do! Weather.save h summary location in
         ret summary) days w
    = (forecast h (reads w) days,
       mkWorld
         (after_saves h w_tableName (fun o => weather_row o location)
            (forecast_built h (reads w) days) (db w))
         (reads w + length (forecast_built h (reads w) days))%nat
         (calls w) (sent w) (console w)).
Proof.
  unfold after_saves.
  induction days as [|day days IH]; intros w; simpl.
  - destruct w; simpl. by rewrite Nat.add_0_r.
  - rewrite bind_run, bind_run, Weather_new_run.
    destruct (Weather_at h day (clock h (reads w))) as [o|e]; cbv beta iota.
    + rewrite bind_run, Weather_save_run. cbv beta iota.
      unfold ret at 1. cbv beta iota.
      rewrite bind_run, IH. simpl.
      rewrite Nat.add_succ_r.
      by destruct (forecast h (S (reads w)) days).
    + destruct w; simpl. by rewrite Nat.add_0_r.
Qed.

Lemma getWeather_cacheMiss_run h data w :
  let request := DarkSky (latitude data) (longitude data) in
  let days := weather_days (provider h (length (calls w)) request) in
  let result := let? l := days in forecast h (reads w) l in
  let made := forecast_mapped h (reads w) days in
  getWeather_cacheMiss h data w
  = (Ret tt,
     mkWorld
       (after_saves h w_tableName (fun o => weather_row o (id data)) made (db w))
       (reads w + length made)%nat (calls w ++ [request])
       (sent w ++ [full_reply BWeathers result])
       (console w ++ logged result)).
Proof.
  unfold getWeather_cacheMiss, weather_days, forecast_mapped.
  rewrite catch_run, bind_run. unfold superagent_get at 1.
  destruct (provider _ _ _) as [body|]; simpl;
    [|by rewrite Nat.add_0_r].
  rewrite bind_run. unfold get. unfold lift at 1.
  destruct (js_get body "daily") as [daily|]; simpl;
    [|by rewrite Nat.add_0_r].
  rewrite bind_run. unfold lift at 1.
  destruct (js_get daily "data") as [days|]; simpl;
    [|by rewrite Nat.add_0_r].
  rewrite bind_run. unfold js_map. rewrite bind_run. unfold lift at 1.
  destruct (array_items days) as [l|]; simpl;
    [|by rewrite Nat.add_0_r].
  rewrite map_items_forecast. simpl.
  destruct (forecast h (reads w) l); simpl; by rewrite ?app_nil_r.
Qed.

(** ** The cache of events, movies and business listings *)

(** C4. On a cache miss of events, movies or business listings exactly
    one response is sent and it carries at most 2 items, whatever the
    provider answered. *)
Theorem miss_response_at_most_two h r data w :
  is_Some (db w !! table_of r) ->
  stored_rows (table_of r) (id data) w = [] ->
  exists reply,
    sent (snd (handler h r data w)) = sent w ++ [reply]
    /\ (reply_items reply <= 2)%nat.
Proof.
  intros Ht Hnone.
  assert (Hcut : forall (A : Type) (wrap : list A -> Body) (o : outcome (list A)),
             (forall ys, reply_items (Send (wrap ys)) = length ys) ->
             (reply_items (sliced_reply wrap o) <= 2)%nat).
  { intros A wrap [ys|e] Hwrap; unfold sliced_reply; [|simpl; lia].
    rewrite Hwrap. unfold slice_0_2. rewrite length_firstn. lia. }
  destruct r; simpl in *.
  - rewrite (getEvents_miss _ _ _ Ht Hnone). simpl. eexists. split; [done|].
    by apply Hcut.
  - rewrite (getMovies_miss _ _ _ Ht Hnone). simpl. eexists. split; [done|].
    by apply Hcut.
  - rewrite (getYelp_miss _ _ _ Ht Hnone). simpl. eexists. split; [done|].
    by apply Hcut.
Qed.

Lemma miss_response_at_most_two_witness :
  exists reply,
    sent (snd (handler (sample_host (Some sample_events) 0 1 Stored) Events seattle
                 fresh_world))
    = sent fresh_world ++ [reply]
    /\ (reply_items reply <= 2)%nat.
Proof.
  apply miss_response_at_most_two.
  - exists empty_table. reflexivity.
  - reflexivity.
Defined.

(** ** Weather: the 15 seconds rule *)

Lemma deleteByLocationId_world t location w :
  snd (deleteByLocationId t location w)
  = set_db (after_delete t location (db w)) w.
Proof.
  unfold deleteByLocationId, delete_where, after_delete.
  destruct (db w !! t); simpl; [done|by rewrite set_db_same].
Qed.

Lemma filter_out_then_in {A : Type} (p : A -> bool) (l : list A) :
  List.filter p (List.filter (fun x => negb (p x)) l) = [].
Proof.
  induction l as [|x l IH]; simpl; [done|].
  destruct (p x) eqn:Hp; simpl; [done|]. by rewrite Hp.
Qed.

Lemma after_delete_leaves_none t location w :
  stored_rows t location (set_db (after_delete t location (db w)) w) = [].
Proof.
  unfold stored_rows, after_delete. simpl.
  destruct (db w !! t) as [tb|] eqn:Ht.
  - rewrite lookup_insert_eq. simpl. apply filter_out_then_in.
  - by rewrite Ht.
Qed.

Lemma timeouts_weathers_value : timeouts_weathers = 15000%Q.
Proof. reflexivity. Qed.

Lemma getWeather_hit_run h data w r rs :
  stored_rows "weathers" (id data) w = r :: rs ->
  getWeather h data w
  = if js_gt (age_of h (clock h (reads w)) r) (Some timeouts_weathers)
    then
      getWeather_cacheMiss h data
        (mkWorld (after_delete "weathers" (id data) (db w)) (S (reads w))
           (calls w) (sent w)
           (console w
            ++ [LogInfo "Invalid weather data for location: " (search_query data)]))
    else
      (Ret tt,
       mkWorld (db w) (S (reads w)) (calls w) (sent w ++ [Send (BRows (r :: rs))])
         (console w)).
Proof.
  intros Hrows. unfold getWeather, Weather.lookup.
  rewrite (lookup_hit _ _ _ _ _ _ _ Hrows).
  cbv beta iota zeta delta [catch bind Date_now get lift rows_first js_get].
  change (js_sub (Some (inject_Z (clock h (reads w))))
            (to_number h (row_get r "created_at")))
    with (age_of h (clock h (reads w)) r).
  destruct (js_gt _ _); [|reflexivity].
  unfold console_log, forget, Weather.deleteByLocationId, Weather.tableName.
  cbv beta iota. rewrite deleteByLocationId_world.
  by rewrite !getWeather_cacheMiss_run.
Qed.

(** C1. A weather request that finds rows of the location reads the
    clock once and takes the age of the first row.  An age above 15000
    ms: all weather rows of the location are deleted, exactly one
    provider request is issued, and the store ends as that deletion
    followed by the saves of the fetch.  An age of at most 15000 ms:
    the store is untouched, no provider request is issued and the rows
    are sent as they were found. *)
Theorem weather_freshness h data w r rs a :
  stored_rows "weathers" (id data) w = r :: rs ->
  age_of h (clock h (reads w)) r = Some a ->
  let w' := snd (getWeather h data w) in
  ((15000 < a)%Q ->
     let request := DarkSky (latitude data) (longitude data) in
     let emptied := after_delete "weathers" (id data) (db w) in
     let made :=
       forecast_mapped h (S (reads w))
         (weather_days (provider h (length (calls w)) request)) in
     stored_rows "weathers" (id data) (set_db emptied w) = []
     /\ db w' = after_saves h w_tableName (fun o => weather_row o (id data)) made emptied
     /\ calls w' = calls w ++ [request])
  /\ ((a <= 15000)%Q ->
       db w' = db w
       /\ calls w' = calls w
       /\ sent w' = sent w ++ [Send (BRows (r :: rs))]).
Proof.
  intros Hrows Hage w'. subst w'.
  rewrite (getWeather_hit_run _ _ _ _ _ Hrows), Hage.
  unfold js_gt. rewrite timeouts_weathers_value.
  destruct (Qle_bool a 15000) eqn:Hle; cbn [negb]; cbv beta iota.
  - apply Qle_bool_iff in Hle. split; [intros Hlt; lra|]. by intros _.
  - assert (Hlt : (15000 < a)%Q).
    { apply Qnot_le_lt. intros Hc. apply Qle_bool_iff in Hc. congruence. }
    split; [|intros Hc; lra]. intros _.
    split; [apply after_delete_leaves_none|].
    by rewrite getWeather_cacheMiss_run.
Qed.

Lemma weather_freshness_witness :
  calls (snd (getWeather (sample_host (Some sample_forecast) 20000 1 Stored)
                seattle rainy_world))
  = [DarkSky (latitude seattle) (longitude seattle)]
  /\ sent (snd (getWeather (sample_host (Some sample_forecast) 5000 1 Stored)
                  seattle rainy_world))
     = [Send (BRows (stored_rows "weathers" 1 rainy_world))].
Proof.
  split.
  - destruct (weather_freshness (sample_host (Some sample_forecast) 20000 1 Stored)
                seattle rainy_world _ _ (inject_Z 19000) eq_refl eq_refl)
      as [Hstale _].
    destruct Hstale as (_ & _ & Hcalls); [reflexivity|exact Hcalls].
  - destruct (weather_freshness (sample_host (Some sample_forecast) 5000 1 Stored)
                seattle rainy_world _ _ (inject_Z 4000) eq_refl eq_refl)
      as [_ Hfresh].
    destruct Hfresh as (_ & _ & Hsent); [discriminate|exact Hsent].
Defined.

(** ** How many rows a fetch creates *)

Lemma built_length {A : Type} (g : json -> outcome A) items :
  (length (built g items) <= length items)%nat.
Proof.
  induction items as [|x items IH]; simpl; [lia|].
  destruct (g x); simpl; lia.
Qed.

Lemma traverse_built {A : Type} (g : json -> outcome A) items ys :
  traverse g items = Ret ys -> built g items = ys /\ length ys = length items.
Proof.
  revert ys. induction items as [|x items IH]; intros ys; simpl.
  - intros [= <-]. done.
  - destruct (g x) as [y|]; simpl; [|done].
    destruct (traverse g items) as [zs|]; simpl; [|done].
    intros [= <-]. destruct (IH zs eq_refl) as [-> <-]. done.
Qed.

Lemma built_Forall {A : Type} (P : A -> Prop) (g : json -> outcome A) items :
  (forall x y, g x = Ret y -> P y) -> Forall P (built g items).
Proof.
  intros Hg. induction items as [|x items IH]; simpl; [constructor|].
  destruct (g x) as [y|] eqn:Hx; [|constructor].
  constructor; [by apply (Hg x)|done].
Qed.

Ltac invert_new :=
  repeat match goal with
         | H : and_then (js_get ?v ?k) _ = Ret _ |- _ =>
             destruct (js_get v k); simpl in H; [|discriminate H]
         | H : Ret _ = Ret _ |- _ => injection H as H; subst
         end.

Lemma Event_new_tableName h x o : Event.new h x = Ret o -> e_tableName o = "events".
Proof. unfold Event.new. intros H. invert_new. reflexivity. Qed.

Lemma Movie_new_tableName h x o : Movie.new h x = Ret o -> m_tableName o = "movies".
Proof. unfold Movie.new. intros H. invert_new. reflexivity. Qed.

Lemma Yelp_new_tableName x o : Yelp.new x = Ret o -> y_tableName o = "yelp".
Proof. unfold Yelp.new. intros H. invert_new. reflexivity. Qed.

(** The saves of objects of one table append to that table, at most one
    row per object, and one row per object when the engine stores every
    INSERT. *)
Lemma after_saves_rows {A : Type} h t (tbl : A -> string) (cv : A -> row) os :
  Forall (fun o => tbl o = t) os ->
  forall d tb,
    d !! t = Some tb ->
    exists tb',
      after_saves h tbl cv os d !! t = Some tb'
      /\ (length (rows tb') <= length (rows tb) + length os)%nat
      /\ ((forall rw rs, engine h t rw rs = Stored) ->
           length (rows tb') = (length (rows tb) + length os)%nat).
Proof.
  unfold after_saves.
  induction 1 as [|o os Ho _ IH]; intros d tb Hd; simpl.
  - exists tb. split; [done|]. split; [lia|]. intros _. lia.
  - rewrite Ho. unfold after_insert at 2. rewrite Hd.
    match goal with
    | |- context [fold_left _ _ (<[t := ?tb1]> d)] =>
        destruct (IH (<[t := tb1]> d) tb1) as (tb' & Hget & Hle & Heq);
          [apply lookup_insert_eq|]
    end.
    exists tb'. split; [done|]. simpl in Hle, Heq. split.
    + destruct (engine h t _ (rows tb)); rewrite ?length_app in Hle; simpl in Hle; lia.
    + intros Hall. specialize (Heq Hall). rewrite Hall in Heq.
      rewrite length_app in Heq. simpl in Heq. lia.
Qed.

Lemma created_by_fetch {A : Type} h t (g : json -> outcome A) (tbl : A -> string)
    (cv : A -> row) items w w' :
  (forall x y, g x = Ret y -> tbl y = t) ->
  is_Some (db w !! t) ->
  db w' = after_saves h tbl cv (built g items) (db w) ->
  (length (table_rows t w') <= length (table_rows t w) + length items)%nat
  /\ ((forall rw rs, engine h t rw rs = Stored) ->
       (exists ys, traverse g items = Ret ys) ->
       length (table_rows t w') = (length (table_rows t w) + length items)%nat).
Proof.
  intros Htbl [tb Ht] Hdb. unfold table_rows. rewrite Hdb, Ht.
  destruct (after_saves_rows h t tbl cv (built g items)
              (built_Forall _ _ _ Htbl) (db w) tb Ht) as (tb' & -> & Hle & Heq).
  pose proof (built_length g items) as Hlen. split; [lia|].
  intros Hall [ys Hys]. rewrite (Heq Hall).
  destruct (traverse_built _ _ _ Hys) as [-> <-]. done.
Qed.

Lemma sliced_reply_sent {A : Type} (wrap : list A -> Body) (o : outcome (list A)) b l :
  l ++ [sliced_reply wrap o] = l ++ [Send b] -> exists ys, o = Ret ys.
Proof.
  intros H. apply app_inv_head in H. destruct o as [ys|e]; [by exists ys|].
  discriminate H.
Qed.

(** C2, as the code has it.  On a cache miss of events, movies or
    business listings whose provider answer carries the items [items],
    every item is saved before the response is sliced: the fetch creates
    at most [length items] rows, and exactly [length items] rows when the
    engine stores every INSERT and the fetch answers with the mapped
    items.  The cap of 2 is on the response, not on the rows. *)
Theorem rows_created_per_item h r data w items :
  is_Some (db w !! table_of r) ->
  stored_rows (table_of r) (id data) w = [] ->
  fetched_items h r data w = Ret items ->
  let w' := snd (handler h r data w) in
  (length (table_rows (table_of r) w')
   <= length (table_rows (table_of r) w) + length items)%nat
  /\ ((forall rw rs, engine h (table_of r) rw rs = Stored) ->
       (exists b, sent w' = sent w ++ [Send b]) ->
       length (table_rows (table_of r) w')
       = (length (table_rows (table_of r) w) + length items)%nat).
Proof.
  intros Ht Hnone Hitems w'. subst w'. unfold fetched_items in Hitems.
  destruct r; simpl in *.
  - rewrite (getEvents_miss _ _ _ Ht Hnone). rewrite Hitems. simpl.
    match goal with
    | |- context [mkWorld ?d ?n ?c ?s ?l] =>
        destruct (created_by_fetch h "events" (Event.new h) e_tableName
                    (fun o => event_row o (id data)) items w (mkWorld d n c s l)
                    (Event_new_tableName h) Ht eq_refl) as [Hle Heq]
    end.
    split; [exact Hle|]. intros Hall [b Hb]. apply Heq; [done|].
    by apply sliced_reply_sent in Hb.
  - rewrite (getMovies_miss _ _ _ Ht Hnone). rewrite Hitems. simpl.
    match goal with
    | |- context [mkWorld ?d ?n ?c ?s ?l] =>
        destruct (created_by_fetch h "movies" (Movie.new h) m_tableName
                    (fun o => movie_row o (id data)) items w (mkWorld d n c s l)
                    (Movie_new_tableName h) Ht eq_refl) as [Hle Heq]
    end.
    split; [exact Hle|]. intros Hall [b Hb]. apply Heq; [done|].
    by apply sliced_reply_sent in Hb.
  - rewrite (getYelp_miss _ _ _ Ht Hnone). rewrite Hitems. simpl.
    match goal with
    | |- context [mkWorld ?d ?n ?c ?s ?l] =>
        destruct (created_by_fetch h "yelp" Yelp.new y_tableName
                    (fun o => yelp_row o (id data)) items w (mkWorld d n c s l)
                    Yelp_new_tableName Ht eq_refl) as [Hle Heq]
    end.
    split; [exact Hle|]. intros Hall [b Hb]. apply Heq; [done|].
    by apply sliced_reply_sent in Hb.
Qed.

Lemma rows_created_per_item_witness :
  length (table_rows "events"
            (snd (getEvents (sample_host (Some sample_events) 0 1 Stored) seattle
                    fresh_world)))
  = 3%nat.
Proof.
  destruct (rows_created_per_item (sample_host (Some sample_events) 0 1 Stored)
              Events seattle fresh_world
              [sample_event "jazz"; sample_event "opera"; sample_event "rock"])
    as [_ Heq].
  - exists empty_table. reflexivity.
  - reflexivity.
  - reflexivity.
  - apply Heq; [reflexivity|]. eexists. vm_compute. reflexivity.
Defined.

(** C2 as stated fails: a payload of three events leaves three rows. *)
Lemma rows_created_not_capped :
  ~ (forall h r data w,
       is_Some (db w !! table_of r) ->
       stored_rows (table_of r) (id data) w = [] ->
       (length (table_rows (table_of r) (snd (handler h r data w)))
        <= length (table_rows (table_of r) w) + 2)%nat).
Proof.
  intros Hcap.
  specialize (Hcap (sample_host (Some sample_events) 0 1 Stored) Events seattle
                fresh_world).
  assert (Hrows : length (table_rows (table_of Events)
                     (snd (handler (sample_host (Some sample_events) 0 1 Stored)
                             Events seattle fresh_world))) = 3%nat)
    by (vm_compute; reflexivity).
  rewrite Hrows in Hcap.
  assert (Hzero : length (table_rows (table_of Events) fresh_world) = 0%nat)
    by (vm_compute; reflexivity).
  rewrite Hzero in Hcap.
  assert (Hle : (3 <= 0 + 2)%nat).
  { apply Hcap; [exists empty_table; reflexivity|reflexivity]. }
  lia.
Qed.

(** ** The location resolver *)

Lemma lookupLocation_miss query cacheHit cacheMiss w :
  is_Some (db w !! "locations") ->
  stored_locations query w = [] ->
  Location.lookupLocation query cacheHit cacheMiss w
  = catch cacheMiss (fun error => console_error error) w.
Proof.
  intros [tb Ht] Hnone. unfold stored_locations in Hnone. rewrite Ht in Hnone.
  unfold Location.lookupLocation, catch, bind, select_where.
  by rewrite Ht, Hnone.
Qed.

Lemma lookupLocation_hit query cacheHit cacheMiss w r rs :
  stored_locations query w = r :: rs ->
  Location.lookupLocation query cacheHit cacheMiss w
  = catch (cacheHit (r :: rs)) (fun error => console_error error) w.
Proof.
  intros Hrows. unfold stored_locations in Hrows.
  destruct (db w !! "locations") as [tb|] eqn:Ht; [|done].
  unfold Location.lookupLocation, catch, bind, select_where.
  by rewrite Ht, Hrows.
Qed.

(** What [save] of a location does to a world whose engine gives the
    verdict [v]. *)
Lemma Location_save_run h this w tb :
  db w !! "locations" = Some tb ->
  Location.save h this w
  = match engine h "locations"
            (("id", num (serial tb + 1)) :: location_row this) (rows tb) with
    | Stored =>
        (Ret (mkLocation (l_tableName this) (l_search_query this)
                (l_formatted_query this) (l_latitude this) (l_longitude this)
                (num (serial tb + 1))),
         set_db
           (<["locations" :=
               mkTable (serial tb + 1)
                 (rows tb ++ [("id", num (serial tb + 1)) :: location_row this])]>
              (db w)) w)
    | Conflict =>
        (Throw (TypeError "Cannot read property 'id' of undefined"),
         set_db (<["locations" := mkTable (serial tb + 1) (rows tb)]> (db w)) w)
    | Refused =>
        (Throw (QueryError "insert refused"),
         set_db (<["locations" := mkTable (serial tb + 1) (rows tb)]> (db w)) w)
    end.
Proof.
  intros Ht. unfold Location.save, bind, insert_into, get, lift.
  rewrite Ht. unfold location_row, num. cbn [combine]. cbv zeta.
  by destruct (engine h "locations" _ (rows tb)).
Qed.

(** C7. When the geocoding provider answers with an empty [results]
    array, [results[0]] is [undefined] and the constructor throws on its
    first property read: no Location is built, the error is written to
    the console, nothing is stored and no response is sent. *)
Theorem empty_results_no_location h query w body :
  is_Some (db w !! "locations") ->
  stored_locations query w = [] ->
  provider h (length (calls w)) (Geocode query) = Some body ->
  js_get body "results" = Ret (JArr []) ->
  let error := TypeError "Cannot read property 'formatted_address' of undefined" in
  Location.new query body = Throw error
  /\ getLocation h query w
     = (Ret tt,
        mkWorld (db w) (reads w) (calls w ++ [Geocode query]) (sent w)
          (console w ++ [LogError error])).
Proof.
  intros Ht Hnone Hbody Hresults error.
  assert (Hnew : Location.new query body = Throw error).
  { unfold Location.new, Location.first_result. by rewrite Hresults. }
  split; [exact Hnew|].
  unfold getLocation. rewrite (lookupLocation_miss _ _ _ _ Ht Hnone).
  unfold catch, bind, superagent_get, lift. rewrite Hbody, Hnew. reflexivity.
Qed.

Lemma empty_results_no_location_witness :
  sent (snd (getLocation (sample_host (Some no_results) 0 1 Stored) "atlantis"
               fresh_world)) = [].
Proof.
  destruct (empty_results_no_location (sample_host (Some no_results) 0 1 Stored)
              "atlantis" fresh_world no_results) as [_ Hrun].
  - exists empty_table. reflexivity.
  - reflexivity.
  - reflexivity.
  - reflexivity.
  - rewrite Hrun. reflexivity.
Defined.

(** C3 on the code.  When the INSERT of a new location collides, RETURNING
    yields no row, [result.rows[0]] is [undefined] and [save] throws on
    [.id]; nobody handles the rejection and [getLocation] sends no
    response. *)
Theorem location_collision_rejects h query w tb body loc :
  db w !! "locations" = Some tb ->
  stored_locations query w = [] ->
  provider h (length (calls w)) (Geocode query) = Some body ->
  Location.new query body = Ret loc ->
  engine h "locations" (("id", num (serial tb + 1)) :: location_row loc) (rows tb)
  = Conflict ->
  fst (Location.save h loc w)
  = Throw (TypeError "Cannot read property 'id' of undefined")
  /\ sent (snd (getLocation h query w)) = sent w.
Proof.
  intros Ht Hnone Hbody Hnew Hconflict. split.
  - rewrite (Location_save_run _ _ _ _ Ht). by rewrite Hconflict.
  - unfold getLocation.
    rewrite (lookupLocation_miss _ _ _ _ (ex_intro _ tb Ht) Hnone).
    unfold catch. rewrite bind_run. unfold superagent_get at 1. rewrite Hbody.
    cbv beta iota. rewrite bind_run. unfold lift at 1. rewrite Hnew.
    cbv beta iota. unfold forget. rewrite bind_run.
    rewrite (Location_save_run h loc
               (mkWorld (db w) (reads w) (calls w ++ [Geocode query]) (sent w)
                  (console w)) tb Ht).
    by rewrite Hconflict.
Qed.

Lemma location_collision_rejects_witness :
  sent (snd (getLocation (sample_host (Some sample_geocode) 0 1 Conflict) "seattle"
               fresh_world)) = [].
Proof.
  refine (proj2 (location_collision_rejects
                   (sample_host (Some sample_geocode) 0 1 Conflict) "seattle"
                   fresh_world empty_table sample_geocode
                   (mkLocation "locations" "seattle" (JStr "Seattle, WA, USA")
                      (JNum (476062095 # 10000000)) (JNum (-1223320708 # 10000000))
                      JUndefined) _ _ _ _ _)); reflexivity.
Defined.

Lemma Location_new_query query body loc :
  Location.new query body = Ret loc -> l_search_query loc = query.
Proof.
  unfold Location.new. intros H.
  destruct (Location.first_result body); simpl in H; [|discriminate H].
  invert_new. reflexivity.
Qed.



(** ** Reading back what was saved *)





(** ** The response of a miss and the inserts *)

Lemma getWeather_miss h data w :
  is_Some (db w !! "weathers") ->
  stored_rows "weathers" (id data) w = [] ->
  getWeather h data w = getWeather_cacheMiss h data w.
Proof.
  intros Ht Hnone. unfold getWeather, Weather.lookup, Weather.tableName.
  rewrite (lookup_miss _ _ _ _ _ Ht Hnone), catch_run.
  by rewrite getWeather_cacheMiss_run.
Qed.

Lemma forecast_with_engine e h days :
  forall n, forecast (with_engine e h) n days = forecast h n days.
Proof.
  induction days as [|day days IH]; intros n; simpl; [done|].
  change (Weather_at (with_engine e h) day (clock h n))
    with (Weather_at h day (clock h n)).
  destruct (Weather_at h day (clock h n)); simpl; [|done].
  by rewrite IH.
Qed.

(** C8, as the code has it.  On a cache miss the response is a function
    of what the provider answered and, for weather, of the clock
    readings stamped into [created_at]: two fetches that get the same
    answer (and, for weather, start at the same clock reading) send the
    same response, whatever their stores hold and whatever their engines
    decide on the inserts. *)
Theorem miss_response_ignores_inserts h e :
  (forall r data data' w w',
     is_Some (db w !! table_of r) ->
     stored_rows (table_of r) (id data) w = [] ->
     is_Some (db w' !! table_of r) ->
     stored_rows (table_of r) (id data') w' = [] ->
     provider h (length (calls w)) (request_of r data)
     = provider h (length (calls w')) (request_of r data') ->
     exists reply,
       sent (snd (handler h r data w)) = sent w ++ [reply]
       /\ sent (snd (handler (with_engine e h) r data' w')) = sent w' ++ [reply])
  /\ (forall data data' w w',
       is_Some (db w !! "weathers") ->
       stored_rows "weathers" (id data) w = [] ->
       is_Some (db w' !! "weathers") ->
       stored_rows "weathers" (id data') w' = [] ->
       provider h (length (calls w)) (DarkSky (latitude data) (longitude data))
       = provider h (length (calls w')) (DarkSky (latitude data') (longitude data')) ->
       reads w = reads w' ->
       exists reply,
         sent (snd (getWeather h data w)) = sent w ++ [reply]
         /\ sent (snd (getWeather (with_engine e h) data' w')) = sent w' ++ [reply]).
Proof.
  split.
  - intros r data data' w w' Ht Hnone Ht' Hnone' Hsame.
    destruct r; simpl in *.
    + rewrite (getEvents_miss _ _ _ Ht Hnone), (getEvents_miss _ _ _ Ht' Hnone').
      simpl. rewrite <- Hsame. eexists. split; reflexivity.
    + rewrite (getMovies_miss _ _ _ Ht Hnone), (getMovies_miss _ _ _ Ht' Hnone').
      simpl. rewrite <- Hsame. eexists. split; reflexivity.
    + rewrite (getYelp_miss _ _ _ Ht Hnone), (getYelp_miss _ _ _ Ht' Hnone').
      simpl. rewrite <- Hsame. eexists. split; reflexivity.
  - intros data data' w w' Ht Hnone Ht' Hnone' Hsame Hreads.
    rewrite (getWeather_miss _ _ _ Ht Hnone), (getWeather_miss _ _ _ Ht' Hnone').
    rewrite !getWeather_cacheMiss_run. simpl. rewrite <- Hsame, <- Hreads.
    eexists. split; [reflexivity|].
    destruct (weather_days _) as [l|]; simpl; [|done].
    by rewrite forecast_with_engine.
Qed.

Lemma miss_response_ignores_inserts_witness :
  exists reply,
    sent (snd (handler (sample_host (Some sample_events) 0 1 Stored) Events seattle
                 fresh_world)) = [reply]
    /\ sent (snd (handler (sample_host (Some sample_events) 0 1 Refused) Events
                    seattle fresh_world)) = [reply].
Proof.
  destruct (miss_response_ignores_inserts (sample_host (Some sample_events) 0 1 Stored)
              (fun _ _ _ => Refused)) as [Hsliced _].
  apply (Hsliced Events seattle seattle fresh_world fresh_world).
  - exists empty_table. reflexivity.
  - reflexivity.
  - exists empty_table. reflexivity.
  - reflexivity.
  - reflexivity.
Defined.

(** C8 as stated fails for weather: with the same provider answer, the
    same request and the same store, another clock gives another
    response. *)
Lemma weather_response_reads_clock :
  ~ (forall h c data w,
       is_Some (db w !! "weathers") ->
       stored_rows "weathers" (id data) w = [] ->
       sent (snd (getWeather (with_clock c h) data w))
       = sent (snd (getWeather h data w))).
Proof.
  intros Hsame.
  specialize (Hsame (sample_host (Some sample_forecast) 0 1 Stored)
                (fun _ => 99) seattle fresh_world).
  assert (Hmiss : is_Some (db fresh_world !! "weathers"))
    by (exists empty_table; reflexivity).
  specialize (Hsame Hmiss eq_refl). vm_compute in Hsame. discriminate Hsame.
Qed.

(** ** One lookup for every resource *)

(** C10. [Event.lookup], [Movie.lookup] and [lookup] are one function,
    so [getMovies], written against [Event.lookup], is [getMovies] written
    against [Movie.lookup], that is the generic [lookup] at the table
    name "movies".  The table it reads is movies: rows of the location
    there are what it sends, and without such rows it fetches, whatever
    the events table holds. *)
Theorem getMovies_reads_movies :
  Event.lookup = lookup
  /\ Movie.lookup = lookup
  /\ (forall h data, getMovies h data = getMovies_with_Movie_lookup h data)
  /\ (forall h data w x xs,
       stored_rows "movies" (id data) w = x :: xs ->
       getMovies h data w
       = (Ret tt,
          mkWorld (db w) (reads w) (calls w) (sent w ++ [Send (BRows (x :: xs))])
            (console w)))
  /\ (forall h data w,
       is_Some (db w !! "movies") ->
       stored_rows "movies" (id data) w = [] ->
       calls (snd (getMovies h data w)) = calls w ++ [TheMovieDb (search_query data)]).
Proof.
  split; [reflexivity|]. split; [reflexivity|]. split; [reflexivity|]. split.
  - intros h data w x xs Hrows. exact (handler_hit h Movies data w x xs Hrows).
  - intros h data w Ht Hnone. by rewrite (getMovies_miss _ _ _ Ht Hnone).
Qed.

Lemma getMovies_reads_movies_witness :
  stored_rows "events" 1 eventful_world <> []
  /\ calls (snd (getMovies (sample_host None 0 1 Stored) seattle eventful_world))
     = [TheMovieDb (JStr "seattle")].
Proof.
  split; [discriminate|].
  destruct getMovies_reads_movies as (_ & _ & _ & _ & Hmiss).
  apply (Hmiss (sample_host None 0 1 Stored) seattle eventful_world).
  - exists empty_table. reflexivity.
  - reflexivity.
Defined.

(** ** Cached once, served forever *)

Lemma lookup_no_table t location cacheHit cacheMiss w :
  db w !! t = None ->
  lookup t location cacheHit cacheMiss w
  = (Ret tt,
     mkWorld (db w) (reads w) (calls w) (sent w)
       (console w ++ [LogError (no_relation t)])).
Proof.
  intros Ht. unfold lookup, catch, bind, select_where. by rewrite Ht.
Qed.

Lemma after_insert_lookup_ne h t t' cv d :
  t <> t' -> after_insert h t' cv d !! t = d !! t.
Proof.
  intros Hne. unfold after_insert. destruct (d !! t'); [|done].
  by rewrite lookup_insert_ne.
Qed.

Lemma after_saves_lookup_ne {A : Type} h t t' (tbl : A -> string) (cv : A -> row) os :
  Forall (fun o => tbl o = t') os ->
  t <> t' ->
  forall d, after_saves h tbl cv os d !! t = d !! t.
Proof.
  unfold after_saves. induction 1 as [|o os Ho _ IH]; intros Hne d; simpl; [done|].
  rewrite IH; [|done]. rewrite Ho. by apply after_insert_lookup_ne.
Qed.

Lemma after_delete_lookup_ne t t' location d :
  t <> t' -> after_delete t' location d !! t = d !! t.
Proof.
  intros Hne. unfold after_delete. destruct (d !! t'); [|done].
  by rewrite lookup_insert_ne.
Qed.

Lemma rows_at_lookup t location (d d' : gmap string Table) :
  d' !! t = d !! t -> rows_at t location d' = rows_at t location d.
Proof. intros Hd. unfold rows_at. by rewrite Hd. Qed.

Lemma location_id_is_other location location' i cv :
  row_get cv "location_id" = num location' ->
  location' <> location ->
  location_id_is location (("id", i) :: cv) = false.
Proof.
  unfold location_id_is, row_get. simpl.
  destruct (assoc "location_id" cv) as [v|]; [|discriminate].
  intros -> Hne. unfold num, Qeq_bool, inject_Z. simpl.
  apply Z.eqb_neq. lia.
Qed.

Lemma after_insert_rows_at h t t' cv d location location' :
  row_get cv "location_id" = num location' ->
  location' <> location ->
  rows_at t location (after_insert h t' cv d) = rows_at t location d.
Proof.
  intros Hcv Hne. destruct (decide (t = t')) as [->|Htt].
  - unfold rows_at, after_insert.
    destruct (d !! t') as [tb|] eqn:Ht; [|by rewrite Ht].
    cbv zeta. rewrite lookup_insert_eq. simpl.
    destruct (engine h t' _ (rows tb)); [|done|done].
    rewrite List.filter_app. simpl.
    rewrite (location_id_is_other _ _ _ _ Hcv Hne). by rewrite app_nil_r.
  - apply rows_at_lookup. by apply after_insert_lookup_ne.
Qed.

(** Saves into another table, or of rows of another location, leave the
    rows of a location in a table as they are. *)
Lemma saves_keep_rows {A : Type} h t location t' location'
    (tbl : A -> string) (cv : A -> row) os :
  Forall (fun o => tbl o = t') os ->
  (forall o, row_get (cv o) "location_id" = num location') ->
  t <> t' \/ location' <> location ->
  forall d, rows_at t location (after_saves h tbl cv os d) = rows_at t location d.
Proof.
  intros Htbl Hcv [Htt|Hloc] d.
  - apply rows_at_lookup. by apply (after_saves_lookup_ne h t t').
  - clear Htbl. revert d. unfold after_saves.
    induction os as [|o os IH]; intros d; simpl; [done|].
    rewrite IH. by apply (after_insert_rows_at _ _ _ _ _ _ location').
Qed.

Lemma mapped_Forall {A : Type} (P : A -> Prop) (g : json -> outcome A) items :
  (forall x y, g x = Ret y -> P y) -> Forall P (mapped g items).
Proof.
  intros Hg. destruct items as [l|]; simpl; [by apply built_Forall|constructor].
Qed.

Lemma handler_keeps_rows h r' data' w t location :
  stored_rows t location w <> [] ->
  stored_rows t location (snd (handler h r' data' w)) = stored_rows t location w.
Proof.
  intros Hcached.
  destruct (db w !! table_of r') as [tb|] eqn:Ht.
  2: { destruct r'; simpl in *;
         unfold getEvents, getMovies, getYelp, Event.lookup, Yelp.lookup;
         by rewrite (lookup_no_table _ _ _ _ _ Ht). }
  destruct (stored_rows (table_of r') (id data') w) as [|x xs] eqn:Hrows.
  2: { by rewrite (handler_hit _ _ _ _ _ _ Hrows). }
  assert (Hwhere : t <> table_of r' \/ id data' <> location).
  { destruct (decide (id data' = location)) as [<-|Hne]; [left|by right].
    intros ->. by apply Hcached. }
  change (rows_at t location (db (snd (handler h r' data' w)))
          = rows_at t location (db w)).
  destruct r'; simpl in Ht, Hrows, Hwhere |- *.
  - rewrite (getEvents_miss _ _ _ (ex_intro _ tb Ht) Hrows). simpl.
    apply (saves_keep_rows h t location "events" (id data')); [|done|done].
    apply mapped_Forall, Event_new_tableName.
  - rewrite (getMovies_miss _ _ _ (ex_intro _ tb Ht) Hrows). simpl.
    apply (saves_keep_rows h t location "movies" (id data')); [|done|done].
    apply mapped_Forall, Movie_new_tableName.
  - rewrite (getYelp_miss _ _ _ (ex_intro _ tb Ht) Hrows). simpl.
    apply (saves_keep_rows h t location "yelp" (id data')); [|done|done].
    apply mapped_Forall, Yelp_new_tableName.
Qed.

Lemma Weather_at_tableName h day now o :
  Weather_at h day now = Ret o -> w_tableName o = "weathers".
Proof. unfold Weather_at. intros H. invert_new. reflexivity. Qed.

Lemma forecast_mapped_tableName h days :
  forall n, Forall (fun o => w_tableName o = "weathers") (forecast_mapped h n days).
Proof.
  destruct days as [l|]; simpl; [|constructor].
  induction l as [|day l IH]; intros n; simpl; [constructor|].
  destruct (Weather_at h day (clock h n)) as [o|] eqn:Ho; [|constructor].
  constructor; [by apply (Weather_at_tableName h day (clock h n))|apply IH].
Qed.

Lemma getWeather_cacheMiss_other_tables h data w t :
  t <> "weathers" ->
  db (snd (getWeather_cacheMiss h data w)) !! t = db w !! t.
Proof.
  intros Hne. rewrite getWeather_cacheMiss_run. simpl.
  apply (after_saves_lookup_ne h t "weathers"); [|done].
  apply forecast_mapped_tableName.
Qed.

(** A weather request changes no table but weathers. *)
Lemma getWeather_other_tables h data w t :
  t <> "weathers" ->
  db (snd (getWeather h data w)) !! t = db w !! t.
Proof.
  intros Hne.
  destruct (db w !! "weathers") as [tb|] eqn:Ht.
  2: { unfold getWeather, Weather.lookup, Weather.tableName.
       by rewrite (lookup_no_table _ _ _ _ _ Ht). }
  destruct (stored_rows "weathers" (id data) w) as [|r rs] eqn:Hrows.
  - rewrite (getWeather_miss _ _ _ (ex_intro _ tb Ht) Hrows).
    by apply getWeather_cacheMiss_other_tables.
  - rewrite (getWeather_hit_run _ _ _ _ _ Hrows).
    destruct (js_gt _ _); [|reflexivity].
    rewrite getWeather_cacheMiss_other_tables; [|done]. simpl.
    by apply after_delete_lookup_ne.
Qed.

(** A location request changes no table but locations. *)
Lemma getLocation_other_tables h query w t :
  t <> "locations" ->
  db (snd (getLocation h query w)) !! t = db w !! t.
Proof.
  intros Hne.
  destruct (db w !! "locations") as [tb|] eqn:Ht.
  2: { unfold getLocation, Location.lookupLocation, catch, bind, select_where.
       by rewrite Ht. }
  destruct (stored_locations query w) as [|r rs] eqn:Hrows.
  2: { unfold getLocation. by rewrite (lookupLocation_hit _ _ _ _ _ _ Hrows). }
  unfold getLocation.
  rewrite (lookupLocation_miss _ _ _ _ (ex_intro _ tb Ht) Hrows).
  unfold catch. rewrite bind_run. unfold superagent_get at 1.
  destruct (provider h _ _) as [body|]; cbv beta iota; [|reflexivity].
  rewrite bind_run. unfold lift at 1.
  destruct (Location.new query body) as [loc|]; cbv beta iota; [|reflexivity].
  unfold forget. rewrite bind_run.
  rewrite (Location_save_run h loc
             (mkWorld (db w) (reads w) (calls w ++ [Geocode query]) (sent w)
                (console w)) tb Ht).
  destruct (engine h "locations" _ (rows tb)); simpl; by rewrite lookup_insert_ne.
Qed.

Lemma table_of_not_weathers r : table_of r <> "weathers".
Proof. by destruct r. Qed.

Lemma table_of_not_locations r : table_of r <> "locations".
Proof. by destruct r. Qed.

Lemma route_keeps_rows h r location q w :
  stored_rows (table_of r) location w <> [] ->
  stored_rows (table_of r) location (snd (route h q w))
  = stored_rows (table_of r) location w.
Proof.
  intros Hcached. destruct q as [query|data|data|data|data]; simpl.
  - apply (rows_at_lookup (table_of r) location (db w)).
    apply getLocation_other_tables, table_of_not_locations.
  - apply (rows_at_lookup (table_of r) location (db w)).
    apply getWeather_other_tables, table_of_not_weathers.
  - by apply (handler_keeps_rows h Events).
  - by apply (handler_keeps_rows h Movies).
  - by apply (handler_keeps_rows h Businesses).
Qed.

Lemma after_requests_keeps_rows h r location qs :
  forall w,
    stored_rows (table_of r) location w <> [] ->
    stored_rows (table_of r) location (after_requests h qs w)
    = stored_rows (table_of r) location w.
Proof.
  unfold after_requests.
  induction qs as [|q qs IH]; intros w Hcached; simpl; [done|].
  rewrite IH; rewrite (route_keeps_rows _ _ _ _ _ Hcached); done.
Qed.

(** C5. Once the table of events, movies or business listings holds a
    row of a location, a fetch for that location sends those stored rows
    whatever requests were served in between: after any list of requests
    on any route the rows of the location are the same, and the fetch
    sends them, leaves the store as it is, issues no provider request
    and does not read the clock. *)
Theorem cached_rows_served_forever h r data w x xs qs :
  stored_rows (table_of r) (id data) w = x :: xs ->
  let w1 := after_requests h qs w in
  handler h r data w1
  = (Ret tt,
     mkWorld (db w1) (reads w1) (calls w1) (sent w1 ++ [Send (BRows (x :: xs))])
       (console w1)).
Proof.
  intros Hrows w1. apply handler_hit. subst w1.
  rewrite after_requests_keeps_rows; [done|]. by rewrite Hrows.
Qed.

Lemma cached_rows_served_forever_witness :
  sent (snd (handler (sample_host (Some sample_events) 0 1 Stored) Events seattle
               (after_requests (sample_host (Some sample_events) 0 1 Stored)
                  sample_requests eventful_world)))
  = sent (after_requests (sample_host (Some sample_events) 0 1 Stored)
            sample_requests eventful_world)
    ++ [Send (BRows (stored_rows "events" 1 eventful_world))]
  /\ calls (snd (handler (sample_host (Some sample_events) 0 1 Stored) Events seattle
                  (after_requests (sample_host (Some sample_events) 0 1 Stored)
                     sample_requests eventful_world)))
     = calls (after_requests (sample_host (Some sample_events) 0 1 Stored)
                sample_requests eventful_world).
Proof.
  rewrite (cached_rows_served_forever (sample_host (Some sample_events) 0 1 Stored)
             Events seattle eventful_world _ _ sample_requests eq_refl).
  split; reflexivity.
Defined.

(** ** Failures of the store and of the providers *)

(** X1. When the table of a resource does not exist the SELECT of
    [lookup] is rejected; its handler gets no response object: the error
    is written to the console, no response is sent, no provider request
    is issued.  This holds for events, movies, business listings and
    weather alike. *)
Theorem missing_table_no_response h data w :
  (forall r,
     db w !! table_of r = None ->
     handler h r data w
     = (Ret tt,
        mkWorld (db w) (reads w) (calls w) (sent w)
          (console w ++ [LogError (no_relation (table_of r))])))
  /\ (db w !! "weathers" = None ->
      getWeather h data w
      = (Ret tt,
         mkWorld (db w) (reads w) (calls w) (sent w)
           (console w ++ [LogError (no_relation "weathers")]))).
Proof.
  split.
  - intros r Ht. destruct r; simpl in *;
      unfold getEvents, getMovies, getYelp, Event.lookup, Yelp.lookup;
      by rewrite (lookup_no_table _ _ _ _ _ Ht).
  - intros Ht. unfold getWeather, Weather.lookup, Weather.tableName.
    by rewrite (lookup_no_table _ _ _ _ _ Ht).
Qed.

Lemma missing_table_no_response_witness :
  sent (snd (getWeather (sample_host (Some sample_forecast) 0 1 Stored) seattle
               (mkWorld ∅ 0 [] [] []))) = [].
Proof.
  destruct (missing_table_no_response (sample_host (Some sample_forecast) 0 1 Stored)
              seattle (mkWorld ∅ 0 [] [] [])) as [_ Hweather].
  rewrite Hweather; reflexivity.
Defined.

(** X2. A fetch of events, movies or business listings whose provider
    request fails, or whose answer lacks the array the handler maps,
    answers 500 with the fixed text after exactly one provider request;
    the error is logged and nothing is stored. *)
Theorem failed_fetch_answers_500 h r data w e :
  is_Some (db w !! table_of r) ->
  stored_rows (table_of r) (id data) w = [] ->
  fetched_items h r data w = Throw e ->
  handler h r data w
  = (Ret tt,
     mkWorld (db w) (reads w) (calls w ++ [request_of r data])
       (sent w ++ [sorry]) (console w ++ [LogError e])).
Proof.
  intros Ht Hnone Hitems. unfold fetched_items in Hitems.
  destruct r; simpl in *.
  - rewrite (getEvents_miss _ _ _ Ht Hnone). by rewrite Hitems.
  - rewrite (getMovies_miss _ _ _ Ht Hnone). by rewrite Hitems.
  - rewrite (getYelp_miss _ _ _ Ht Hnone). by rewrite Hitems.
Qed.

Lemma failed_fetch_answers_500_witness :
  sent (snd (handler (sample_host (Some no_results) 0 1 Stored) Events seattle
               fresh_world)) = [sorry].
Proof.
  rewrite (failed_fetch_answers_500 (sample_host (Some no_results) 0 1 Stored)
             Events seattle fresh_world
             (TypeError "Cannot read property 'map' of undefined")).
  - reflexivity.
  - exists empty_table. reflexivity.
  - reflexivity.
  - reflexivity.
Defined.

(** X3. A weather fetch (the [cacheMiss] of [getWeather]) whose provider
    request fails, or whose answer has no [daily.data] array, answers
    500 after exactly one provider request; the clock is not read and
    nothing is stored. *)
Theorem failed_forecast_answers_500 h data w e :
  weather_days
    (provider h (length (calls w)) (DarkSky (latitude data) (longitude data)))
  = Throw e ->
  getWeather_cacheMiss h data w
  = (Ret tt,
     mkWorld (db w) (reads w)
       (calls w ++ [DarkSky (latitude data) (longitude data)])
       (sent w ++ [sorry]) (console w ++ [LogError e])).
Proof.
  intros Hdays. rewrite getWeather_cacheMiss_run. cbv zeta. rewrite Hdays.
  simpl. by rewrite Nat.add_0_r.
Qed.

Lemma failed_forecast_answers_500_witness :
  sent (snd (getWeather_cacheMiss (sample_host None 0 1 Stored) seattle fresh_world))
  = [sorry].
Proof.
  rewrite (failed_forecast_answers_500 (sample_host None 0 1 Stored) seattle
             fresh_world HttpError eq_refl).
  reflexivity.
Defined.

(** X4. When the geocoding request fails, [getLocation] calls
    [handleError] without the response: the error is logged, nothing is
    stored and the caller gets no response at all, not even a 500. *)
Theorem failed_geocode_no_response h query w :
  is_Some (db w !! "locations") ->
  stored_locations query w = [] ->
  provider h (length (calls w)) (Geocode query) = None ->
  getLocation h query w
  = (Ret tt,
     mkWorld (db w) (reads w) (calls w ++ [Geocode query]) (sent w)
       (console w ++ [LogError HttpError])).
Proof.
  intros Ht Hnone Hfail. unfold getLocation.
  rewrite (lookupLocation_miss _ _ _ _ Ht Hnone).
  unfold catch, bind, superagent_get. by rewrite Hfail.
Qed.

Lemma failed_geocode_no_response_witness :
  sent (snd (getLocation (sample_host None 0 1 Stored) "seattle" fresh_world)) = [].
Proof.
  rewrite (failed_geocode_no_response (sample_host None 0 1 Stored) "seattle"
             fresh_world).
  - reflexivity.
  - exists empty_table. reflexivity.
  - reflexivity.
  - reflexivity.
Defined.

(** ** More on the location resolver *)

Lemma search_query_is_true query r :
  search_query_is query r = true -> row_get r "search_query" = JStr query.
Proof.
  unfold search_query_is. destruct (row_get r "search_query"); try discriminate.
  intros Heq. apply String.eqb_eq in Heq. by subst.
Qed.

Lemma filter_head {A : Type} (p : A -> bool) (l : list A) x xs :
  List.filter p l = x :: xs -> p x = true.
Proof.
  intros Hf. assert (Hin : In x (List.filter p l)) by (rewrite Hf; by left).
  by apply List.filter_In in Hin as [_ Hp].
Qed.

(** X5. A location request whose query is in the store is answered with
    the first stored row of that query alone, however many rows match:
    the row sent carries the query, no provider request is issued and
    the store is left as it is. *)
Theorem location_hit_first_row h query w r rs :
  stored_locations query w = r :: rs ->
  getLocation h query w
  = (Ret tt,
     mkWorld (db w) (reads w) (calls w) (sent w ++ [Send (BRow (JObj r))])
       (console w))
  /\ row_get r "search_query" = JStr query.
Proof.
  intros Hrows. split.
  - unfold getLocation. by rewrite (lookupLocation_hit _ _ _ _ _ _ Hrows).
  - apply search_query_is_true. unfold stored_locations in Hrows.
    destruct (db w !! "locations") as [tb|]; [|done].
    exact (filter_head _ _ _ _ Hrows).
Qed.

Lemma location_hit_first_row_witness :
  calls (snd (getLocation (sample_host None 0 1 Stored) "seattle"
                (snd (getLocation (sample_host (Some sample_geocode) 0 1 Stored)
                        "seattle" fresh_world))))
  = [Geocode "seattle"].
Proof.
  destruct (location_hit_first_row (sample_host None 0 1 Stored) "seattle"
              (snd (getLocation (sample_host (Some sample_geocode) 0 1 Stored)
                      "seattle" fresh_world)) _ _ eq_refl) as [Hrun _].
  rewrite Hrun. reflexivity.
Defined.

Lemma js_get_field v k : js_get v k = if is_nullish v then js_get v k else Ret (field v k).
Proof. by destruct v. Qed.

Lemma js_get_ok v k : is_nullish v = false -> js_get v k = Ret (field v k).
Proof. by destruct v. Qed.

Lemma js_get_throws v k : is_nullish v = true -> exists e, js_get v k = Throw e.
Proof. destruct v; try discriminate; intros _; eexists; reflexivity. Qed.

Lemma js_get_Ret v k x : js_get v k = Ret x -> is_nullish v = false /\ x = field v k.
Proof. destruct v; simpl; try discriminate; intros [= <-]; done. Qed.

(** X6. [new Location] takes its fields from the first geocoding result
    and from nothing else: whenever that result has a
    [geometry.location], the object carries the query, the result's
    [formatted_address] and the location's [lat] and [lng] (each
    [undefined] when missing), and no [id]; further results are
    ignored. *)
Theorem Location_from_first_result query body r rest :
  js_get body "results" = Ret (JArr (r :: rest)) ->
  is_nullish (field (field r "geometry") "location") = false ->
  Location.new query body
  = Ret (mkLocation "locations" query (field r "formatted_address")
           (field (field (field r "geometry") "location") "lat")
           (field (field (field r "geometry") "location") "lng")
           JUndefined).
Proof.
  intros Hresults Hloc. unfold Location.new, Location.first_result.
  rewrite Hresults. simpl.
  assert (Hg : is_nullish (field r "geometry") = false)
    by (destruct (field r "geometry"); done).
  assert (Hr : is_nullish r = false) by (destruct r; done).
  rewrite !(js_get_ok r _ Hr). simpl.
  rewrite !(js_get_ok _ _ Hg). simpl.
  by rewrite !(js_get_ok _ _ Hloc).
Qed.

Lemma Location_from_first_result_witness :
  Location.new "seattle" sample_geocode
  = Ret (mkLocation "locations" "seattle" (JStr "Seattle, WA, USA")
           (JNum (476062095 # 10000000)) (JNum (-1223320708 # 10000000)) JUndefined).
Proof.
  exact (Location_from_first_result "seattle" sample_geocode _ [] eq_refl eq_refl).
Defined.

Lemma getLocation_other_queries h query query' w :
  query' <> query ->
  stored_locations query' (snd (getLocation h query w)) = stored_locations query' w.
Proof.
  intros Hne.
  destruct (db w !! "locations") as [tb|] eqn:Ht.
  2: { unfold getLocation, Location.lookupLocation, catch, bind, select_where.
       by rewrite Ht. }
  destruct (stored_locations query w) as [|r rs] eqn:Hrows.
  2: { unfold getLocation. by rewrite (lookupLocation_hit _ _ _ _ _ _ Hrows). }
  unfold getLocation.
  rewrite (lookupLocation_miss _ _ _ _ (ex_intro _ tb Ht) Hrows).
  unfold catch. rewrite bind_run. unfold superagent_get at 1.
  destruct (provider h _ _) as [body|]; cbv beta iota;
    [|unfold stored_locations; simpl; done].
  rewrite bind_run. unfold lift at 1.
  destruct (Location.new query body) as [loc|] eqn:Hnew; cbv beta iota;
    [|unfold stored_locations; simpl; done].
  unfold forget. rewrite bind_run.
  rewrite (Location_save_run h loc
             (mkWorld (db w) (reads w) (calls w ++ [Geocode query]) (sent w)
                (console w)) tb Ht).
  unfold stored_locations.
  destruct (engine h "locations" _ (rows tb)); simpl;
    rewrite lookup_insert_eq, Ht; simpl; [|done|done].
  rewrite List.filter_app. simpl.
  unfold search_query_is at 2. unfold location_row. simpl.
  rewrite (Location_new_query _ _ _ Hnew).
  assert (Hdiff : String.eqb query query' = false) by (apply String.eqb_neq; congruence).
  rewrite Hdiff. by rewrite app_nil_r.
Qed.

(** X7. Resolving a query never changes what the store holds for another
    query: the lookup is by exact match of [search_query], and the row a
    miss inserts carries the query it was asked. *)
Theorem resolve_keeps_other_queries h query query' w :
  query' <> query ->
  stored_locations query' (snd (getLocation h query w)) = stored_locations query' w.
Proof. exact (getLocation_other_queries h query query' w). Qed.

Lemma resolve_keeps_other_queries_witness :
  stored_locations "tacoma"
    (snd (getLocation (sample_host (Some sample_geocode) 0 1 Stored) "seattle"
            fresh_world))
  = [].
Proof.
  rewrite (resolve_keeps_other_queries (sample_host (Some sample_geocode) 0 1 Stored)
             "seattle" "tacoma" fresh_world); [reflexivity|discriminate].
Defined.

(** ** The constructors on malformed items *)

Ltac read_ok :=
  repeat match goal with
         | |- context [js_get ?v ?k] =>
             rewrite (js_get_ok v k) by assumption; simpl and_then
         end.

Lemma Event_new_reads h item o :
  Event.new h item = Ret o ->
  is_nullish item = false
  /\ is_nullish (field item "name") = false
  /\ is_nullish (field item "start") = false.
Proof.
  intros Ho. unfold Event.new in Ho.
  destruct (js_get item "url") as [url|] eqn:Hu; [|discriminate Ho].
  simpl in Ho.
  destruct (js_get item "name") as [name|] eqn:Hn; [|discriminate Ho].
  simpl in Ho.
  destruct (js_get name "text") as [text|] eqn:Ht; [|discriminate Ho].
  simpl in Ho.
  destruct (js_get item "start") as [start|] eqn:Hs; [|discriminate Ho].
  simpl in Ho.
  destruct (js_get start "local") as [local|] eqn:Hl; [|discriminate Ho].
  apply js_get_Ret in Hu as [Hu _].
  apply js_get_Ret in Hn as [_ ->]. apply js_get_Ret in Ht as [Ht _].
  apply js_get_Ret in Hs as [_ ->]. apply js_get_Ret in Hl as [Hl _].
  done.
Qed.

(** X8. [new Yelp] and [new Movie] fail on exactly two items,
    [undefined] and [null]: an object with missing fields is mapped,
    the missing fields reading [undefined].  [new Event] reads
    [event.name.text] and [event.start.local] and so also fails when
    [name] or [start] is missing or [null]. *)
Theorem constructors_fail_on_nullish h item :
  ((exists o, Yelp.new item = Ret o) <-> is_nullish item = false)
  /\ ((exists o, Movie.new h item = Ret o) <-> is_nullish item = false)
  /\ ((exists o, Event.new h item = Ret o)
      <-> is_nullish item = false
          /\ is_nullish (field item "name") = false
          /\ is_nullish (field item "start") = false).
Proof.
  split; [|split]; split.
  - intros [o Ho]. unfold Yelp.new in Ho.
    destruct (js_get item "name") eqn:Hn; [|discriminate Ho].
    by apply js_get_Ret in Hn as [Hn _].
  - intros Hitem. unfold Yelp.new. read_ok. by eexists.
  - intros [o Ho]. unfold Movie.new in Ho.
    destruct (js_get item "title") eqn:Hn; [|discriminate Ho].
    by apply js_get_Ret in Hn as [Hn _].
  - intros Hitem. unfold Movie.new. read_ok. by eexists.
  - intros [o Ho]. exact (Event_new_reads h item o Ho).
  - intros (Hitem & Hname & Hstart). unfold Event.new. read_ok. by eexists.
Qed.

(** X9. The [image_url] of a movie is the TMDB base path followed by the
    item's [poster_path] as string concatenation renders it: an item
    without a poster, or with [poster_path: null], gets the URL ending in
    "undefined", respectively "null". *)
Theorem Movie_image_url h item o :
  Movie.new h item = Ret o ->
  m_image_url o
  = ("https://image.tmdb.org/t/p/w185/" ++ to_string h (field item "poster_path"))%string
  /\ (field item "poster_path" = JUndefined ->
      m_image_url o = "https://image.tmdb.org/t/p/w185/undefined")
  /\ (field item "poster_path" = JNull ->
      m_image_url o = "https://image.tmdb.org/t/p/w185/null").
Proof.
  intros Hnew.
  assert (Hitem : is_nullish item = false).
  { unfold Movie.new in Hnew.
    destruct (js_get item "title") eqn:Hn; [|discriminate Hnew].
    by apply js_get_Ret in Hn as [Hn _]. }
  unfold Movie.new in Hnew. revert Hnew. read_ok. intros [= <-]. simpl.
  split; [done|]. split; intros ->; reflexivity.
Qed.

Lemma Movie_image_url_witness :
  m_image_url
    (mkMovie "movies" (JStr "Sleepless in Seattle") JUndefined JUndefined JUndefined
       "https://image.tmdb.org/t/p/w185/null" JUndefined JUndefined)
  = "https://image.tmdb.org/t/p/w185/null".
Proof.
  destruct (Movie_image_url (sample_host None 0 1 Stored)
              (JObj [("title", JStr "Sleepless in Seattle"); ("poster_path", JNull)])
              _ eq_refl) as (_ & _ & Hnull).
  exact (Hnull eq_refl).
Defined.

Lemma substring_0_length n s : (String.length (substring 0 n s) <= n)%nat.
Proof.
  revert s. induction n as [|n IH]; intros s.
  - by destruct s.
  - destruct s as [|c s]; simpl; [lia|]. specialize (IH s). lia.
Qed.

Lemma substring_0_prefix n s : String.prefix (substring 0 n s) s = true.
Proof.
  revert s. induction n as [|n IH]; intros s.
  - by destruct s.
  - destruct s as [|c s]; simpl; [done|].
    destruct (Ascii.ascii_dec c c); [apply IH|done].
Qed.

(** X10. The [time] of a weather object and the [event_date] of an event
    are the first 15 characters of what [Date.toString] gives: never
    longer than 15, and shorter only when the date string is. *)
Theorem dates_are_sliced h :
  (forall day now o,
     Weather_at h day now = Ret o ->
     (String.length (w_time o) <= 15)%nat
     /\ w_time o
        = substring 0 15
            (date_of_number h
               (js_mul (to_number h (field day "time")) (Some (inject_Z 1000))))
     /\ String.prefix (w_time o)
          (date_of_number h
             (js_mul (to_number h (field day "time")) (Some (inject_Z 1000))))
        = true)
  /\ (forall event o,
       Event.new h event = Ret o ->
       (String.length (e_event_date o) <= 15)%nat
       /\ e_event_date o
          = substring 0 15 (date_of_value h (field (field event "start") "local"))
       /\ String.prefix (e_event_date o)
            (date_of_value h (field (field event "start") "local"))
          = true).
Proof.
  split.
  - intros day now o Hnew.
    assert (Hday : is_nullish day = false).
    { unfold Weather_at in Hnew.
      destruct (js_get day "summary") eqn:Hn; [|discriminate Hnew].
      by apply js_get_Ret in Hn as [Hn _]. }
    unfold Weather_at in Hnew. revert Hnew. read_ok. intros [= <-]. simpl.
    unfold slice_0_15.
    split; [apply substring_0_length|]. split; [done|apply substring_0_prefix].
  - intros event o Hnew.
    destruct (Event_new_reads h event o Hnew) as (Hitem & Hname & Hstart).
    unfold Event.new in Hnew. revert Hnew. read_ok. intros [= <-]. simpl.
    unfold slice_0_15.
    split; [apply substring_0_length|]. split; [done|apply substring_0_prefix].
Qed.

Lemma dates_are_sliced_witness :
  (String.length
     (e_event_date
        (mkEvent "events" (JStr "https://www.eventbrite.com/e/jazz") (JStr "jazz")
           "Sat Jun 01 2019" (JStr "An evening out")))
   <= 15)%nat.
Proof.
  destruct (dates_are_sliced (sample_host None 0 1 Stored)) as [_ Hevent].
  exact (proj1 (Hevent (sample_event "jazz")
                  (mkEvent "events" (JStr "https://www.eventbrite.com/e/jazz")
                     (JStr "jazz") "Sat Jun 01 2019" (JStr "An evening out"))
                  eq_refl)).
Defined.

(** ** What a fetch leaves in the store *)




Lemma built_short {A : Type} (g : json -> outcome A) items :
  (length (built g items) < length items)%nat ->
  exists e, traverse g items = Throw e.
Proof.
  intros Hlt. destruct (traverse g items) as [ys|e] eqn:Hys; [|by exists e].
  destruct (traverse_built _ _ _ Hys) as [Hb Hlen]. rewrite Hb in Hlt. lia.
Qed.

Lemma saved_rows_count {A : Type} h t (g : json -> outcome A) (tbl : A -> string)
    (cv : A -> row) items w w' :
  (forall x y, g x = Ret y -> tbl y = t) ->
  is_Some (db w !! t) ->
  (forall rw rs, engine h t rw rs = Stored) ->
  db w' = after_saves h tbl cv (built g items) (db w) ->
  length (table_rows t w') = (length (table_rows t w) + length (built g items))%nat.
Proof.
  intros Htbl [tb Ht] Hall Hdb. unfold table_rows. rewrite Hdb, Ht.
  destruct (after_saves_rows h t tbl cv (built g items)
              (built_Forall _ _ _ Htbl) (db w) tb Ht) as (tb' & -> & _ & Heq).
  by apply Heq.
Qed.

(** X11. A fetch of events, movies or business listings that meets an
    item its constructor throws on answers 500, but the items before it
    were saved already: with an engine that stores every INSERT the
    table has grown by the number of items mapped before the throw. *)
Theorem malformed_item_keeps_earlier_rows h r data w items :
  is_Some (db w !! table_of r) ->
  stored_rows (table_of r) (id data) w = [] ->
  fetched_items h r data w = Ret items ->
  (forall rw rs, engine h (table_of r) rw rs = Stored) ->
  (mapped_count h r items < length items)%nat ->
  let w' := snd (handler h r data w) in
  sent w' = sent w ++ [sorry]
  /\ length (table_rows (table_of r) w')
     = (length (table_rows (table_of r) w) + mapped_count h r items)%nat.
Proof.
  intros Ht Hnone Hitems Hall Hshort w'. subst w'. unfold fetched_items in Hitems.
  destruct r; simpl in *.
  - rewrite (getEvents_miss _ _ _ Ht Hnone). rewrite Hitems. simpl.
    destruct (built_short _ _ Hshort) as [e ->]. split; [done|].
    by apply (saved_rows_count h "events" (Event.new h) e_tableName
                (fun o => event_row o (id data)) items w _ (Event_new_tableName h)).
  - rewrite (getMovies_miss _ _ _ Ht Hnone). rewrite Hitems. simpl.
    destruct (built_short _ _ Hshort) as [e ->]. split; [done|].
    by apply (saved_rows_count h "movies" (Movie.new h) m_tableName
                (fun o => movie_row o (id data)) items w _ (Movie_new_tableName h)).
  - rewrite (getYelp_miss _ _ _ Ht Hnone). rewrite Hitems. simpl.
    destruct (built_short _ _ Hshort) as [e ->]. split; [done|].
    by apply (saved_rows_count h "yelp" Yelp.new y_tableName
                (fun o => yelp_row o (id data)) items w _ Yelp_new_tableName).
Qed.

Lemma malformed_item_keeps_earlier_rows_witness :
  length (table_rows "events"
            (snd (handler
                    (sample_host
                       (Some (JObj [("events", JArr [sample_event "jazz"; JNull;
                                                     sample_event "rock"])]))
                       0 1 Stored)
                    Events seattle fresh_world)))
  = 1%nat.
Proof.
  destruct (malformed_item_keeps_earlier_rows
              (sample_host
                 (Some (JObj [("events", JArr [sample_event "jazz"; JNull;
                                               sample_event "rock"])]))
                 0 1 Stored)
              Events seattle fresh_world [sample_event "jazz"; JNull; sample_event "rock"])
    as [_ Hrows].
  - exists empty_table. reflexivity.
  - reflexivity.
  - reflexivity.
  - reflexivity.
  - simpl. lia.
  - exact Hrows.
Defined.

(** X12. An empty answer is not cached: when the provider answers with
    an empty array the fetch sends the empty list and stores nothing, so
    the next fetch for the location is a miss again and issues the
    provider request a second time. *)
Theorem empty_answer_not_cached h r data w :
  is_Some (db w !! table_of r) ->
  stored_rows (table_of r) (id data) w = [] ->
  fetched_items h r data w = Ret [] ->
  let w1 := snd (handler h r data w) in
  sent w1 = sent w ++ [empty_reply r]
  /\ db w1 = db w
  /\ calls (snd (handler h r data w1))
     = calls w ++ [request_of r data; request_of r data].
Proof.
  intros Ht Hnone Hitems w1. unfold fetched_items in Hitems.
  assert (Hfirst : sent w1 = sent w ++ [empty_reply r] /\ db w1 = db w
                   /\ calls w1 = calls w ++ [request_of r data]).
  { subst w1. destruct r; simpl in *.
    - rewrite (getEvents_miss _ _ _ Ht Hnone). by rewrite Hitems.
    - rewrite (getMovies_miss _ _ _ Ht Hnone). by rewrite Hitems.
    - rewrite (getYelp_miss _ _ _ Ht Hnone). by rewrite Hitems. }
  destruct Hfirst as (Hsent & Hdb & Hcalls). split; [done|]. split; [done|].
  assert (Ht1 : is_Some (db w1 !! table_of r)) by (by rewrite Hdb).
  assert (Hnone1 : stored_rows (table_of r) (id data) w1 = [])
    by (unfold stored_rows in *; by rewrite Hdb).
  destruct r; simpl in *.
  - rewrite (getEvents_miss _ _ _ Ht1 Hnone1). simpl. rewrite Hcalls.
    by rewrite <- app_assoc.
  - rewrite (getMovies_miss _ _ _ Ht1 Hnone1). simpl. rewrite Hcalls.
    by rewrite <- app_assoc.
  - rewrite (getYelp_miss _ _ _ Ht1 Hnone1). simpl. rewrite Hcalls.
    by rewrite <- app_assoc.
Qed.

Lemma empty_answer_not_cached_witness :
  calls (snd (handler (sample_host (Some (JObj [("businesses", JArr [])])) 0 1 Stored)
                Businesses seattle
                (snd (handler
                        (sample_host (Some (JObj [("businesses", JArr [])])) 0 1 Stored)
                        Businesses seattle fresh_world))))
  = [request_of Businesses seattle; request_of Businesses seattle].
Proof.
  destruct (empty_answer_not_cached
              (sample_host (Some (JObj [("businesses", JArr [])])) 0 1 Stored)
              Businesses seattle fresh_world) as (_ & _ & Hcalls).
  - exists empty_table. reflexivity.
  - reflexivity.
  - reflexivity.
  - exact Hcalls.
Defined.





(** ** More on weather *)

Lemma Weather_at_created_at h day now o :
  Weather_at h day now = Ret o -> w_created_at o = now.
Proof. unfold Weather_at. intros H. invert_new. reflexivity. Qed.

Lemma forecast_all h days :
  forall n os,
    forecast h n days = Ret os ->
    forecast_built h n days = os
    /\ length os = length days
    /\ (forall i o, nth_error os i = Some o -> w_created_at o = clock h (n + i)).
Proof.
  induction days as [|day days IH]; intros n os; simpl.
  - intros [= <-]. split; [done|]. split; [done|]. by intros [|i] o.
  - destruct (Weather_at h day (clock h n)) as [o1|] eqn:Ho1; simpl; [|done].
    destruct (forecast h (S n) days) as [os1|] eqn:Hos1; simpl; [|done].
    intros [= <-]. destruct (IH (S n) os1 Hos1) as (-> & <- & Hstamp).
    split; [done|]. split; [done|]. intros [|i] o; simpl.
    + intros [= <-]. rewrite Nat.add_0_r.
      by apply (Weather_at_created_at h day).
    + intros Hnth. rewrite (Hstamp i o Hnth). f_equal. lia.
Qed.

(** X14. A weather fetch is not sliced: when every day of the provider
    answer maps, the response carries one object per day, each stamped
    with its own reading of the clock, in order. *)
Theorem forecast_sent_whole h data w days os :
  weather_days
    (provider h (length (calls w)) (DarkSky (latitude data) (longitude data)))
  = Ret days ->
  forecast h (reads w) days = Ret os ->
  let w' := snd (getWeather_cacheMiss h data w) in
  sent w' = sent w ++ [Send (BWeathers os)]
  /\ length os = length days
  /\ reads w' = (reads w + length days)%nat
  /\ (forall i o, nth_error os i = Some o -> w_created_at o = clock h (reads w + i)).
Proof.
  intros Hdays Hos w'. subst w'. rewrite getWeather_cacheMiss_run. cbv zeta.
  rewrite Hdays. simpl. rewrite Hos. simpl.
  destruct (forecast_all h days (reads w) os Hos) as (-> & Hlen & Hstamp).
  by rewrite Hlen.
Qed.

Lemma forecast_sent_whole_witness :
  reply_items
    (Send (BWeathers
             [mkWeather "weathers" (JStr "Light rain in the morning.") "Sat Jun 01 2019" 0;
              mkWeather "weathers" (JStr "Light rain in the morning.") "Sat Jun 01 2019" 1;
              mkWeather "weathers" (JStr "Light rain in the morning.") "Sat Jun 01 2019" 2]))
  = 3%nat
  /\ sent (snd (getWeather_cacheMiss
                  (sample_host
                     (Some (JObj [("daily",
                                   JObj [("data",
                                          JArr [sample_day; sample_day; sample_day])])]))
                     0 1 Stored) seattle fresh_world))
     = [Send (BWeathers
                [mkWeather "weathers" (JStr "Light rain in the morning.")
                   "Sat Jun 01 2019" 0;
                 mkWeather "weathers" (JStr "Light rain in the morning.")
                   "Sat Jun 01 2019" 1;
                 mkWeather "weathers" (JStr "Light rain in the morning.")
                   "Sat Jun 01 2019" 2])].
Proof.
  split; [reflexivity|].
  exact (proj1 (forecast_sent_whole
                  (sample_host
                     (Some (JObj [("daily",
                                   JObj [("data",
                                          JArr [sample_day; sample_day; sample_day])])]))
                     0 1 Stored) seattle fresh_world
                  [sample_day; sample_day; sample_day] _ eq_refl eq_refl)).
Defined.




Lemma location_id_is_one location location' r :
  location_id_is location r = true ->
  location_id_is location' r = true ->
  location = location'.
Proof.
  unfold location_id_is. destruct (row_get r "location_id"); try discriminate.
  intros H1 H2. apply Qeq_bool_eq in H1. apply Qeq_bool_eq in H2.
  apply inject_Z_injective. rewrite <- H1, <- H2. reflexivity.
Qed.

Lemma filter_after_filter_out {A : Type} (p p' : A -> bool) (l : list A) :
  (forall x, p' x = true -> p x = false) ->
  List.filter p' (List.filter (fun x => negb (p x)) l) = List.filter p' l.
Proof.
  intros Hpp. induction l as [|x l IH]; simpl; [done|].
  destruct (p x) eqn:Hp; simpl.
  - destruct (p' x) eqn:Hp'; [|done]. rewrite (Hpp x Hp') in Hp. discriminate.
  - by rewrite IH.
Qed.

Lemma after_delete_rows_at_other t t' location location' d :
  location' <> location ->
  rows_at t location' (after_delete t' location d) = rows_at t location' d.
Proof.
  intros Hne. destruct (decide (t = t')) as [->|Htt].
  - unfold rows_at, after_delete.
    destruct (d !! t') as [tb|] eqn:Ht; [|by rewrite Ht].
    rewrite lookup_insert_eq. simpl. apply filter_after_filter_out.
    intros r Hr. destruct (location_id_is location r) eqn:Hl; [|done].
    destruct Hne. by apply (location_id_is_one _ _ r).
  - apply rows_at_lookup. by apply after_delete_lookup_ne.
Qed.

(** X16. [deleteByLocationId] on a table that exists removes every row
    of the location from that table and nothing else: the rows of every
    other location stay as they are, in order, and so does every other
    table.  On a table that does not exist it is rejected and changes
    nothing. *)
Theorem deleteByLocationId_removes_one_location table city w :
  let w' := snd (deleteByLocationId table city w) in
  stored_rows table city w' = []
  /\ (forall location, location <> city ->
      stored_rows table location w' = stored_rows table location w)
  /\ (forall t, t <> table -> db w' !! t = db w !! t)
  /\ (db w !! table = None ->
      deleteByLocationId table city w = (Throw (no_relation table), w)).
Proof.
  intros w'. subst w'. rewrite deleteByLocationId_world.
  split; [apply after_delete_leaves_none|]. split; [|split].
  - intros location Hne.
    exact (after_delete_rows_at_other table table city location (db w) Hne).
  - intros t Hne. simpl. by apply after_delete_lookup_ne.
  - intros Ht. unfold deleteByLocationId, delete_where. by rewrite Ht.
Qed.

(** X17. A weather request for one location never touches the weather
    rows of another location, whether it serves, fetches or refreshes. *)
Theorem weather_of_other_locations_kept h data w location :
  location <> id data ->
  stored_rows "weathers" location (snd (getWeather h data w))
  = stored_rows "weathers" location w.
Proof.
  intros Hne.
  assert (Hmiss : forall w0,
             stored_rows "weathers" location (snd (getWeather_cacheMiss h data w0))
             = stored_rows "weathers" location w0).
  { intros w0. rewrite getWeather_cacheMiss_run. cbv zeta.
    apply (saves_keep_rows h "weathers" location "weathers" (id data));
      [apply forecast_mapped_tableName|done|right; congruence]. }
  destruct (db w !! "weathers") as [tb|] eqn:Ht.
  2: { unfold getWeather, Weather.lookup, Weather.tableName.
       by rewrite (lookup_no_table _ _ _ _ _ Ht). }
  destruct (stored_rows "weathers" (id data) w) as [|r rs] eqn:Hrows.
  - rewrite (getWeather_miss _ _ _ (ex_intro _ tb Ht) Hrows). apply Hmiss.
  - rewrite (getWeather_hit_run _ _ _ _ _ Hrows).
    destruct (js_gt _ _); [|reflexivity].
    rewrite Hmiss.
    exact (after_delete_rows_at_other "weathers" "weathers" (id data) location
             (db w) Hne).
Qed.

Lemma weather_of_other_locations_kept_witness :
  stored_rows "weathers" 1
    (snd (getWeather (sample_host (Some sample_forecast) 20000 1 Stored)
            (mkData 2 (JStr "tacoma") (JStr "Tacoma, WA, USA") (JNum (47 # 1))
               (JNum (-122 # 1)))
            rainy_world))
  = stored_rows "weathers" 1 rainy_world.
Proof.
  apply (weather_of_other_locations_kept
           (sample_host (Some sample_forecast) 20000 1 Stored)
           (mkData 2 (JStr "tacoma") (JStr "Tacoma, WA, USA") (JNum (47 # 1))
              (JNum (-122 # 1)))
           rainy_world 1).
  discriminate.
Defined.

(** ** Every route *)

Lemma handler_other_tables h r data w t :
  t <> table_of r ->
  db (snd (handler h r data w)) !! t = db w !! t.
Proof.
  intros Hne.
  destruct (db w !! table_of r) as [tb|] eqn:Ht.
  2: { destruct r; simpl in *;
         unfold getEvents, getMovies, getYelp, Event.lookup, Yelp.lookup;
         by rewrite (lookup_no_table _ _ _ _ _ Ht). }
  destruct (stored_rows (table_of r) (id data) w) as [|x xs] eqn:Hrows.
  2: { by rewrite (handler_hit _ _ _ _ _ _ Hrows). }
  destruct r; simpl in Ht, Hrows, Hne |- *.
  - rewrite (getEvents_miss _ _ _ (ex_intro _ tb Ht) Hrows). simpl.
    apply (after_saves_lookup_ne h t "events"); [|done].
    apply mapped_Forall, Event_new_tableName.
  - rewrite (getMovies_miss _ _ _ (ex_intro _ tb Ht) Hrows). simpl.
    apply (after_saves_lookup_ne h t "movies"); [|done].
    apply mapped_Forall, Movie_new_tableName.
  - rewrite (getYelp_miss _ _ _ (ex_intro _ tb Ht) Hrows). simpl.
    apply (after_saves_lookup_ne h t "yelp"); [|done].
    apply mapped_Forall, Yelp_new_tableName.
Qed.

(** X18. Every route reads and writes one table: a request leaves every
    other table of the store exactly as it was. *)
Theorem route_writes_own_table h q w t :
  t <> table_of_route q ->
  db (snd (route h q w)) !! t = db w !! t.
Proof.
  intros Hne. destruct q as [query|data|data|data|data]; simpl in *.
  - by apply getLocation_other_tables.
  - by apply getWeather_other_tables.
  - by apply (handler_other_tables h Events).
  - by apply (handler_other_tables h Movies).
  - by apply (handler_other_tables h Businesses).
Qed.

Lemma route_writes_own_table_witness :
  db (snd (route (sample_host (Some sample_events) 0 1 Stored) (GetEvents seattle)
             rainy_world)) !! "weathers"
  = db rainy_world !! "weathers".
Proof.
  apply (route_writes_own_table (sample_host (Some sample_events) 0 1 Stored)
           (GetEvents seattle) rainy_world "weathers").
  discriminate.
Defined.

Lemma at_most_one_each_intro w w' replies requests :
  sent w' = sent w ++ replies ->
  (length replies <= 1)%nat ->
  calls w' = calls w ++ requests ->
  (length requests <= 1)%nat ->
  at_most_one_each w w'.
Proof. intros. exists replies, requests. done. Qed.

Lemma getWeather_cacheMiss_one h data w0 w :
  sent w0 = sent w -> calls w0 = calls w ->
  at_most_one_each w (snd (getWeather_cacheMiss h data w0)).
Proof.
  intros Hsent Hcalls. rewrite getWeather_cacheMiss_run. cbv zeta.
  eapply at_most_one_each_intro; simpl.
  - by rewrite Hsent.
  - simpl. lia.
  - by rewrite Hcalls.
  - simpl. lia.
Qed.

Ltac one_each replies requests :=
  apply (at_most_one_each_intro _ _ replies requests);
  simpl; rewrite ?app_nil_r; first [reflexivity | lia].

(** X19. No request is answered twice and no request calls a provider
    twice: on every route, whatever the store, the provider and the
    engine do, a request sends at most one response and issues at most
    one provider request, and leaves the earlier ones as they are. *)
Theorem route_one_response_one_request h q w :
  at_most_one_each w (snd (route h q w)).
Proof.
  assert (Hsliced : forall r data, at_most_one_each w (snd (handler h r data w))).
  { intros r data.
    destruct (db w !! table_of r) as [tb|] eqn:Ht.
    2: { destruct r; simpl in *;
           unfold getEvents, getMovies, getYelp, Event.lookup, Yelp.lookup;
           rewrite (lookup_no_table _ _ _ _ _ Ht);
           one_each (@nil Reply) (@nil Request). }
    destruct (stored_rows (table_of r) (id data) w) as [|x xs] eqn:Hrows.
    2: { rewrite (handler_hit _ _ _ _ _ _ Hrows).
         one_each ([Send (BRows (x :: xs))]) (@nil Request). }
    destruct r; simpl in Ht, Hrows |- *.
    - rewrite (getEvents_miss _ _ _ (ex_intro _ tb Ht) Hrows).
      eapply at_most_one_each_intro; simpl; first [reflexivity | lia].
    - rewrite (getMovies_miss _ _ _ (ex_intro _ tb Ht) Hrows).
      eapply at_most_one_each_intro; simpl; first [reflexivity | lia].
    - rewrite (getYelp_miss _ _ _ (ex_intro _ tb Ht) Hrows).
      eapply at_most_one_each_intro; simpl; first [reflexivity | lia]. }
  destruct q as [query|data|data|data|data]; simpl;
    [| |apply (Hsliced Events)|apply (Hsliced Movies)|apply (Hsliced Businesses)].
  - destruct (db w !! "locations") as [tb|] eqn:Ht.
    2: { unfold getLocation, Location.lookupLocation, catch, bind, select_where.
         rewrite Ht.
         one_each (@nil Reply) (@nil Request). }
    destruct (stored_locations query w) as [|r rs] eqn:Hrows.
    2: { unfold getLocation. rewrite (lookupLocation_hit _ _ _ _ _ _ Hrows).
         one_each ([Send (BRow (JObj r))]) (@nil Request). }
    unfold getLocation.
    rewrite (lookupLocation_miss _ _ _ _ (ex_intro _ tb Ht) Hrows).
    unfold catch. rewrite bind_run. unfold superagent_get at 1.
    destruct (provider h _ _) as [body|]; cbv beta iota.
    2: { one_each (@nil Reply) ([Geocode query]). }
    rewrite bind_run. unfold lift at 1.
    destruct (Location.new query body) as [loc|] eqn:Hnew; cbv beta iota.
    2: { one_each (@nil Reply) ([Geocode query]). }
    unfold forget. rewrite bind_run.
    rewrite (Location_save_run h loc
               (mkWorld (db w) (reads w) (calls w ++ [Geocode query]) (sent w)
                  (console w)) tb Ht).
    destruct (engine h "locations" _ (rows tb)); simpl.
    + eapply (at_most_one_each_intro _ _ [_] [Geocode query]); simpl;
        first [reflexivity | lia].
    + one_each (@nil Reply) ([Geocode query]).
    + one_each (@nil Reply) ([Geocode query]).
  - destruct (db w !! "weathers") as [tb|] eqn:Ht.
    2: { unfold getWeather, Weather.lookup, Weather.tableName.
         rewrite (lookup_no_table _ _ _ _ _ Ht).
         one_each (@nil Reply) (@nil Request). }
    destruct (stored_rows "weathers" (id data) w) as [|r rs] eqn:Hrows.
    + rewrite (getWeather_miss _ _ _ (ex_intro _ tb Ht) Hrows).
      by apply getWeather_cacheMiss_one.
    + rewrite (getWeather_hit_run _ _ _ _ _ Hrows).
      destruct (js_gt _ _).
      * by apply getWeather_cacheMiss_one.
      * one_each ([Send (BRows (r :: rs))]) (@nil Request).
Qed.

(** ** Refreshing a stale forecast *)

Lemma age_above h now r a :
  age_of h now r = Some a ->
  (15000 < a)%Q ->
  js_gt (age_of h now r) (Some timeouts_weathers) = true.
Proof.
  intros -> Hlt. simpl. rewrite timeouts_weathers_value.
  apply negb_true_iff. destruct (Qle_bool a 15000) eqn:Hle; [|done].
  apply Qle_bool_iff in Hle. lra.
Qed.

(** X20. The stale rows are deleted before the new forecast is fetched:
    when the first row of the location is older than 15000 ms and the
    provider then fails or answers without [daily.data], the request
    answers 500 and the location is left with no weather rows at all. *)
Theorem stale_forecast_lost_on_failure h data w r rs a e :
  stored_rows "weathers" (id data) w = r :: rs ->
  age_of h (clock h (reads w)) r = Some a ->
  (15000 < a)%Q ->
  weather_days
    (provider h (length (calls w)) (DarkSky (latitude data) (longitude data)))
  = Throw e ->
  let w' := snd (getWeather h data w) in
  sent w' = sent w ++ [sorry]
  /\ stored_rows "weathers" (id data) w' = [].
Proof.
  intros Hrows Hage Hstale Hdays w'. subst w'.
  rewrite (getWeather_hit_run _ _ _ _ _ Hrows), (age_above _ _ _ _ Hage Hstale).
  rewrite getWeather_cacheMiss_run. cbv zeta. simpl calls. rewrite Hdays.
  split; [done|]. apply after_delete_leaves_none.
Qed.

Lemma stale_forecast_lost_on_failure_witness :
  stored_rows "weathers" 1
    (snd (getWeather (sample_host None 20000 1 Stored) seattle rainy_world))
  = [].
Proof.
  exact (proj2 (stale_forecast_lost_on_failure (sample_host None 20000 1 Stored)
                  seattle rainy_world _ _ (inject_Z 19000) HttpError
                  eq_refl eq_refl eq_refl eq_refl)).
Defined.



(** ** A location, once stored *)

Lemma route_keeps_locations h query q w :
  stored_locations query w <> [] ->
  stored_locations query (snd (route h q w)) = stored_locations query w.
Proof.
  intros Hstored.
  assert (Hother : forall w', db w' !! "locations" = db w !! "locations" ->
                              stored_locations query w' = stored_locations query w).
  { intros w' Hdb. unfold stored_locations. by rewrite Hdb. }
  destruct q as [query'|data|data|data|data]; simpl.
  - destruct (decide (query = query')) as [<-|Hne].
    + destruct (stored_locations query w) as [|r rs] eqn:Hrows; [done|].
      unfold getLocation. by rewrite (lookupLocation_hit _ _ _ _ _ _ Hrows).
    + by apply getLocation_other_queries.
  - apply Hother. by apply getWeather_other_tables.
  - apply Hother. by apply (handler_other_tables h Events).
  - apply Hother. by apply (handler_other_tables h Movies).
  - apply Hother. by apply (handler_other_tables h Businesses).
Qed.

(** X22. A location, once stored, is served from the store whatever
    requests come in between: after any list of requests on any route,
    resolving the query sends the same first row, issues no provider
    request and leaves the store as it is. *)
Theorem stored_location_served_forever h query w r rs qs :
  stored_locations query w = r :: rs ->
  let w1 := after_requests h qs w in
  getLocation h query w1
  = (Ret tt,
     mkWorld (db w1) (reads w1) (calls w1) (sent w1 ++ [Send (BRow (JObj r))])
       (console w1)).
Proof.
  intros Hrows w1.
  assert (Hkept : stored_locations query w1 = r :: rs).
  { subst w1. unfold after_requests. revert w Hrows.
    induction qs as [|q qs IH]; intros w Hrows; simpl; [done|].
    apply IH. rewrite route_keeps_locations; [done|]. by rewrite Hrows. }
  unfold getLocation. by rewrite (lookupLocation_hit _ _ _ _ _ _ Hkept).
Qed.

Lemma stored_location_served_forever_witness :
  getLocation (sample_host (Some sample_events) 0 1 Stored) "seattle"
    (after_requests (sample_host (Some sample_events) 0 1 Stored) sample_requests
       seattle_world)
  = (Ret tt,
     mkWorld
       (db (after_requests (sample_host (Some sample_events) 0 1 Stored)
              sample_requests seattle_world))
       (reads (after_requests (sample_host (Some sample_events) 0 1 Stored)
                 sample_requests seattle_world))
       (calls (after_requests (sample_host (Some sample_events) 0 1 Stored)
                 sample_requests seattle_world))
       (sent (after_requests (sample_host (Some sample_events) 0 1 Stored)
                sample_requests seattle_world)
        ++ [Send (BRow (JObj [("id", num 1); ("search_query", JStr "seattle");
                              ("formatted_query", JStr "Seattle, WA, USA")]))])
       (console (after_requests (sample_host (Some sample_events) 0 1 Stored)
                   sample_requests seattle_world))).
Proof.
  exact (stored_location_served_forever
           (sample_host (Some sample_events) 0 1 Stored) "seattle" seattle_world
           [("id", num 1); ("search_query", JStr "seattle");
            ("formatted_query", JStr "Seattle, WA, USA")]
           [] sample_requests eq_refl).
Defined.
